(** * linux-wave: the layered configuration loader (internal/config/config.go)

    A shallow embedding of the configuration subsystem: the schema, the
    built-in defaults, the merger, the validator, the path resolver and the
    two loader entry points, together with the properties the specification
    states about them. *)

From Stdlib Require Import ZArith Ascii String List Lia.
From Stdlib Require Import Floats.SpecFloat.
From stdpp Require Import base option strings list gmap pretty.

Local Open Scope Z_scope.
Local Open Scope string_scope.

(* Let [simpl] compute string concatenation on constructors. *)
#[local] Arguments String.append !_ _ : simpl nomatch.

(** * Go values *)

(** Go's [int] on the supported platforms is a 64-bit signed integer. The
    loader only stores and compares integers (no arithmetic), so they are
    modelled as [Z]. *)
Definition int := Z.

(** A [float64] is an IEEE 754 binary64 value: signed zeros, infinities, NaN
    and finite numbers [(-1)^s * m * 2^e] with a 53-bit mantissa. *)
Definition float64 := spec_float.

Module F64.
Definition zero : float64 := S754_zero false.
Definition neg_zero : float64 := S754_zero true.
(** 1.0 = 2^52 * 2^-52 *)
Definition one : float64 := S754_finite false (2 ^ 52) (-52).
(** 1.5 = 3 * 2^51 * 2^-52 *)
Definition one_and_half : float64 := S754_finite false (3 * 2 ^ 51) (-52).
(** The literal 0.85 is rounded to the nearest binary64:
    0x1B333333333333 * 2^-53. *)
Definition lit_0_85 : float64 := S754_finite false 7656119366529843 (-53).

(** Go's [x != y], [x < y] and [x > y] on float64. *)
Definition neqb (x y : float64) : bool := negb (SFeqb x y).
Definition ltb (x y : float64) : bool := SFltb x y.
Definition gtb (x y : float64) : bool := SFltb y x.

(** The values that compare equal to the constant [0]: both signed zeros. *)
Definition is_zero (x : float64) : Prop := x = zero ∨ x = neg_zero.
End F64.

(** * The [strings] functions the package calls *)

Module strings.
Definition is_ascii_byte (c : ascii) : bool := (nat_of_ascii c <? 128)%nat.
Definition is_lower (c : ascii) : bool :=
  ((97 <=? nat_of_ascii c) && (nat_of_ascii c <=? 122))%nat.
Definition is_upper (c : ascii) : bool :=
  ((65 <=? nat_of_ascii c) && (nat_of_ascii c <=? 90))%nat.
Definition upper_byte (c : ascii) : ascii :=
  if is_lower c then ascii_of_nat (nat_of_ascii c - 32) else c.
Definition lower_byte (c : ascii) : ascii :=
  if is_upper c then ascii_of_nat (nat_of_ascii c + 32) else c.

Fixpoint isASCII (s : string) : bool :=
  match s with
  | EmptyString => true
  | String c rest => is_ascii_byte c && isASCII rest
  end.

Fixpoint map_bytes (f : ascii → ascii) (s : string) : string :=
  match s with
  | EmptyString => EmptyString
  | String c rest => String (f c) (map_bytes f rest)
  end.

(** [strings.ToUpper] and [strings.ToLower] map an ASCII-only string byte
    by byte and hand any other string to [strings.Map] with the Unicode
    case tables, which are a parameter here. *)
Definition ToUpper (unicodeUpper : string → string) (s : string) : string :=
  if isASCII s then map_bytes upper_byte s else unicodeUpper s.
Definition ToLower (unicodeLower : string → string) (s : string) : string :=
  if isASCII s then map_bytes lower_byte s else unicodeLower s.

Fixpoint HasPrefix (s prefix : string) {struct prefix} : bool :=
  match prefix, s with
  | EmptyString, _ => true
  | String p prefix', String c s' =>
      if Ascii.eqb c p then HasPrefix s' prefix' else false
  | String _ _, EmptyString => false
  end.

(** [s == ""] *)
Definition is_empty (s : string) : bool :=
  match s with EmptyString => true | _ => false end.

(** The slice [s[1:]] of a string known to be non-empty. *)
Definition tail (s : string) : string :=
  match s with EmptyString => EmptyString | String _ rest => rest end.

(** [strings.Join] *)
Fixpoint Join (elems : list string) (sep : string) : string :=
  match elems with
  | [] => ""
  | [e] => e
  | e :: rest => e ++ sep ++ Join rest sep
  end.
End strings.

(** * Errors *)

(** The three kinds of [error] value the package builds: [errors.New] (and
    [fmt.Errorf] without [%w]), [fmt.Errorf] with a [%w] verb, and
    [errors.Join]. *)
#[warnings="-register-all"]
Inductive error : Type :=
| errorString (s : string)
| wrapError (msg : string) (err : error)
| joinError (errs : list error).

Definition newline : string := String (ascii_of_nat 10) EmptyString.

(** The [Error()] method. A joined error prints its members one per line. *)
Fixpoint Error (e : error) : string :=
  match e with
  | errorString s => s
  | wrapError msg _ => msg
  | joinError errs => strings.Join (List.map Error errs) newline
  end.

Module errors.
Definition New (text : string) : error := errorString text.
(** [errors.Join(errs...)]: nil when there is nothing to join. No member
    is ever nil in this package. *)
Definition Join (errs : list error) : option error :=
  match errs with
  | [] => None
  | _ => Some (joinError errs)
  end.
End errors.

Module fmt.
(** [fmt.Errorf(format ++ "%w", err)] for a format that ends in [%w]. *)
Definition Errorf_w (prefix : string) (err : error) : error :=
  wrapError (prefix ++ Error err) err.
(** [fmt.Errorf(format ++ "%s", s)] for a format that ends in [%s]. *)
Definition Errorf_s (prefix : string) (s : string) : error :=
  errorString (prefix ++ s).
End fmt.

(** Results of the functions that return [(T, error)] or [error]. *)
Inductive result (A : Type) : Type :=
| Ok (a : A)
| Err (e : error).
Arguments Ok {A} a.
Arguments Err {A} e.

(** * Schema *)

Record ServiceConfig := mkService {
  Timeout : int;
  RetryAttempts : int;
  SocketPath : string
}.

Record LoggingConfig := mkLogging {
  Level : string;
  Format : string
}.

Record AudioConfig := mkAudio {
  Enabled : bool;
  Volume : int;
  CustomSoundSuccess : string;
  CustomSoundFailure : string
}.

Record SecurityConfig := mkSecurity {
  LivenessRequired : bool;
  MatchThreshold : float64;
  MaxAuthAttempts : int;
  LockoutDuration : int
}.

Record Config := mkConfig {
  Service : ServiceConfig;
  Logging : LoggingConfig;
  Audio : AudioConfig;
  Security : SecurityConfig
}.

Definition systemConfigPath : string := "/etc/linux-wave/config.yaml".
Definition userConfigRelPath : string := ".config/linux-wave/config.yaml".

(** * Defaults Provider *)

Definition DefaultConfig : Config :=
  {| Service := {| Timeout := 10;
                   RetryAttempts := 3;
                   SocketPath := "/run/linux-wave/auth.sock" |};
     Logging := {| Level := "INFO";
                   Format := "test" |};
     Audio := {| Enabled := true;
                 Volume := 50;
                 CustomSoundSuccess := "";
                 CustomSoundFailure := "" |};
     Security := {| LivenessRequired := true;
                    MatchThreshold := F64.lit_0_85;
                    MaxAuthAttempts := 3;
                    LockoutDuration := 300 |} |}.

(** The Configuration the glossary describes as the built-in defaults. *)
Definition GlossaryDefaults : Config :=
  {| Service := {| Timeout := 10;
                   RetryAttempts := 3;
                   SocketPath := "/run/linux-wave/auth.sock" |};
     Logging := {| Level := "INFO";
                   Format := "text" |};
     Audio := {| Enabled := true;
                 Volume := 50;
                 CustomSoundSuccess := "";
                 CustomSoundFailure := "" |};
     Security := {| LivenessRequired := true;
                    MatchThreshold := F64.lit_0_85;
                    MaxAuthAttempts := 3;
                    LockoutDuration := 300 |} |}.

(** * [os.Expand] *)

Module expand.
Definition isShellSpecialVar (c : ascii) : bool :=
  existsb (Ascii.eqb c)
    (list_ascii_of_string "*#$@!?-0123456789").

Definition isAlphaNum (c : ascii) : bool :=
  let n := nat_of_ascii c in
  (Ascii.eqb c "_"%char
   || ((48 <=? n) && (n <=? 57))
   || ((97 <=? n) && (n <=? 122))
   || ((65 <=? n) && (n <=? 90)))%nat.

(** The loop [for i = 0; i < len(s) && isAlphaNum(s[i]); i++ {}] with the
    prefix [s[:i]] it delimits. *)
Fixpoint scan_alnum (s : string) : string :=
  match s with
  | EmptyString => EmptyString
  | String c rest => if isAlphaNum c then String c (scan_alnum rest) else EmptyString
  end.

(** The index of the first closing brace at or after index [i], where [s]
    is the string from index [i] on. *)
Fixpoint find_close (s : string) (i : nat) : option nat :=
  match s with
  | EmptyString => None
  | String c rest => if Ascii.eqb c "}"%char then Some i else find_close rest (S i)
  end.

(** The slice [s[:n]]. *)
Fixpoint take (n : nat) (s : string) : string :=
  match n, s with
  | S k, String c rest => String c (take k rest)
  | _, _ => EmptyString
  end.

(** The scan to the closing brace in [getShellName]; [rest] is [s[1:]]. *)
Definition scan_brace (rest : string) : string * nat :=
  match find_close rest 1 with
  | Some i =>
      if (i =? 1)%nat then (EmptyString, 2%nat)
      else (take (i - 1) rest, S i)
  | None => (EmptyString, 1%nat)
  end.

(** [len(s) > 2 && isShellSpecialVar(s[1]) && s[2] == '}'], on [s[1:]]. *)
Definition special_in_braces (rest : string) : bool :=
  match rest with
  | String c1 (String c2 _) => isShellSpecialVar c1 && Ascii.eqb c2 "}"%char
  | _ => false
  end.

(** [getShellName], called on a non-empty string: the name after the dollar
    sign and the number of bytes it takes. *)
Definition getShellName (s : string) : string * nat :=
  match s with
  | EmptyString => (EmptyString, O)
  | String c0 rest =>
      if Ascii.eqb c0 "{"%char then
        if special_in_braces rest then (take 1 rest, 3%nat)
        else scan_brace rest
      else if isShellSpecialVar c0 then (String c0 EmptyString, 1%nat)
      else let name := scan_alnum s in (name, String.length name)
  end.

(** The loop of [os.Expand]: [skip] counts the bytes the last [j += w] still
    has to pass over. *)
Fixpoint expand_loop (mapping : string → string) (skip : nat) (s : string) : string :=
  match s with
  | EmptyString => EmptyString
  | String c rest =>
      match skip with
      | S k => expand_loop mapping k rest
      | O =>
          if Ascii.eqb c "$"%char && negb (strings.is_empty rest) then
            let '(name, w) := getShellName rest in
            let piece :=
              if strings.is_empty name && (0 <? w)%nat then EmptyString
              else if strings.is_empty name then String c EmptyString
              else mapping name in
            piece ++ expand_loop mapping w rest
          else String c (expand_loop mapping O rest)
      end
  end.

Definition Expand (s : string) (mapping : string → string) : string :=
  expand_loop mapping O s.
End expand.

(** * The operating system as the loader sees it *)

(** One key of the configuration document with its decoded value. *)
Inductive setting : Type :=
| service_timeout (v : int)
| service_retry_attempts (v : int)
| service_socket_path (v : string)
| logging_level (v : string)
| logging_format (v : string)
| audio_enabled (v : bool)
| audio_volume (v : int)
| audio_custom_sound_success (v : string)
| audio_custom_sound_failure (v : string)
| security_liveness_required (v : bool)
| security_match_threshold (v : float64)
| security_max_auth_attempts (v : int)
| security_lockout_duration (v : int).

(** The bytes of a file, represented by what the YAML decoder makes of them:
    a decoding error, or the keys present in the document in order. *)
Inductive contents : Type :=
| Malformed (err : error)
| Document (keys : list setting).

(** A directory entry: [os.ReadFile] either fails or yields the bytes. *)
Inductive file : Type :=
| Unreadable (err : error)
| Readable (data : contents).

Record OS := mkOS {
  (** the entry [os.Stat] finds at a path, if any *)
  entry : string → option file;
  (** [os.LookupEnv] *)
  LookupEnv : string → option string
}.

Module os.
(** [_, err := os.Stat(name); err == nil] *)
Definition Stat_ok (w : OS) (name : string) : bool :=
  match entry w name with Some _ => true | None => false end.

Definition ReadFile (w : OS) (name : string) : result contents :=
  match entry w name with
  | None => Err (errorString ("open " ++ name ++ ": no such file or directory"))
  | Some (Unreadable err) => Err err
  | Some (Readable data) => Ok data
  end.

(** [os.Getenv]: the empty string when the variable is unset. *)
Definition Getenv (w : OS) (key : string) : string :=
  match LookupEnv w key with Some v => v | None => "" end.

(** [os.UserHomeDir] on Unix reads [$HOME]. *)
Definition UserHomeDir (w : OS) : result string :=
  let v := Getenv w "HOME" in
  if strings.is_empty v then Err (errorString "$HOME is not defined") else Ok v.

Definition ExpandEnv (w : OS) (s : string) : string :=
  expand.Expand s (Getenv w).
End os.

(** * The [path/filepath] functions the package calls *)

Module filepath.
Definition Separator : ascii := "/"%char.
Definition IsPathSeparator (c : ascii) : bool := Ascii.eqb c Separator.
Definition is_dot (c : ascii) : bool := Ascii.eqb c "."%char.

(** [filepath.IsAbs] on Unix. *)
Definition IsAbs (path : string) : bool := strings.HasPrefix path "/".

(** True at the end of the path and in front of a separator. *)
Definition at_element_end (path : string) : bool :=
  match path with
  | EmptyString => true
  | String c _ => IsPathSeparator c
  end.

(** The output buffer of [Clean] is kept reversed: its head is the byte
    written last, and [out.w] is its length. *)
Definition buffer := list ascii.

(** Backtracking over a [..] element: [out.w--], then
    [for out.w > dotdot && !IsPathSeparator(out.index(out.w)) { out.w-- }].
    The head of the argument is the byte at index [out.w]. *)
Fixpoint backtrack (out : buffer) (dotdot : nat) : buffer :=
  match out with
  | [] => []
  | c :: out' =>
      if (dotdot <? length out')%nat && negb (IsPathSeparator c)
      then backtrack out' dotdot
      else out'
  end.

(** The main loop of [Clean], reading [path] from index [r] on. While
    [copying] the loop is inside the inner [for] that copies a real path
    element up to the next separator. *)
Fixpoint clean_loop (rooted : bool) (path : string) (copying : bool)
    (out : buffer) (dotdot : nat) : buffer :=
  match path with
  | EmptyString => out
  | String c rest =>
      if copying then
        if IsPathSeparator c
        then clean_loop rooted rest false out dotdot
        else clean_loop rooted rest true (c :: out) dotdot
      else if IsPathSeparator c then
        (* empty path element *)
        clean_loop rooted rest false out dotdot
      else if is_dot c && at_element_end rest then
        (* . element *)
        clean_loop rooted rest false out dotdot
      else
        let real_element :=
          let out1 :=
            if (rooted && negb (length out =? 1)%nat)
               || (negb rooted && negb (length out =? 0)%nat)
            then Separator :: out else out in
          clean_loop rooted rest true (c :: out1) dotdot in
        match rest with
        | String c' rest' =>
            if is_dot c && is_dot c' && at_element_end rest' then
              (* .. element: remove to last separator *)
              if (dotdot <? length out)%nat then
                clean_loop rooted rest' false (backtrack out dotdot) dotdot
              else if negb rooted then
                let out1 := if (0 <? length out)%nat then Separator :: out else out in
                let out2 := "."%char :: "."%char :: out1 in
                clean_loop rooted rest' false out2 (length out2)
              else clean_loop rooted rest' false out dotdot
            else real_element
        | EmptyString => real_element
        end
  end.

(** [filepath.Clean] on Unix (no volume name, no slash translation). *)
Definition Clean (path : string) : string :=
  match path with
  | EmptyString => "."
  | String c rest =>
      let rooted := IsPathSeparator c in
      let out :=
        if rooted then clean_loop true rest false [Separator] 1
        else clean_loop false path false [] 0 in
      match out with
      | [] => "."
      | _ => string_of_list_ascii (rev out)
      end
  end.

(** [filepath.Join]: the elements from the first non-empty one on, joined
    by the separator and cleaned; empty when every element is empty. *)
Fixpoint Join (elem : list string) : string :=
  match elem with
  | [] => ""
  | e :: rest =>
      if strings.is_empty e then Join rest
      else Clean (strings.Join elem (String Separator EmptyString))
  end.
End filepath.

(** * Field assignments *)

(** [c.Service.Timeout = v] and its siblings, one per field. *)
Definition set_Timeout (v : int) (c : Config) : Config :=
  mkConfig (mkService v (RetryAttempts (Service c)) (SocketPath (Service c)))
           (Logging c) (Audio c) (Security c).
Definition set_RetryAttempts (v : int) (c : Config) : Config :=
  mkConfig (mkService (Timeout (Service c)) v (SocketPath (Service c)))
           (Logging c) (Audio c) (Security c).
Definition set_SocketPath (v : string) (c : Config) : Config :=
  mkConfig (mkService (Timeout (Service c)) (RetryAttempts (Service c)) v)
           (Logging c) (Audio c) (Security c).
Definition set_Level (v : string) (c : Config) : Config :=
  mkConfig (Service c) (mkLogging v (Format (Logging c))) (Audio c) (Security c).
Definition set_Format (v : string) (c : Config) : Config :=
  mkConfig (Service c) (mkLogging (Level (Logging c)) v) (Audio c) (Security c).
Definition set_Enabled (v : bool) (c : Config) : Config :=
  mkConfig (Service c) (Logging c)
           (mkAudio v (Volume (Audio c)) (CustomSoundSuccess (Audio c))
                    (CustomSoundFailure (Audio c)))
           (Security c).
Definition set_Volume (v : int) (c : Config) : Config :=
  mkConfig (Service c) (Logging c)
           (mkAudio (Enabled (Audio c)) v (CustomSoundSuccess (Audio c))
                    (CustomSoundFailure (Audio c)))
           (Security c).
Definition set_CustomSoundSuccess (v : string) (c : Config) : Config :=
  mkConfig (Service c) (Logging c)
           (mkAudio (Enabled (Audio c)) (Volume (Audio c)) v
                    (CustomSoundFailure (Audio c)))
           (Security c).
Definition set_CustomSoundFailure (v : string) (c : Config) : Config :=
  mkConfig (Service c) (Logging c)
           (mkAudio (Enabled (Audio c)) (Volume (Audio c))
                    (CustomSoundSuccess (Audio c)) v)
           (Security c).
Definition set_LivenessRequired (v : bool) (c : Config) : Config :=
  mkConfig (Service c) (Logging c) (Audio c)
           (mkSecurity v (MatchThreshold (Security c))
                       (MaxAuthAttempts (Security c)) (LockoutDuration (Security c))).
Definition set_MatchThreshold (v : float64) (c : Config) : Config :=
  mkConfig (Service c) (Logging c) (Audio c)
           (mkSecurity (LivenessRequired (Security c)) v
                       (MaxAuthAttempts (Security c)) (LockoutDuration (Security c))).
Definition set_MaxAuthAttempts (v : int) (c : Config) : Config :=
  mkConfig (Service c) (Logging c) (Audio c)
           (mkSecurity (LivenessRequired (Security c)) (MatchThreshold (Security c))
                       v (LockoutDuration (Security c))).
Definition set_LockoutDuration (v : int) (c : Config) : Config :=
  mkConfig (Service c) (Logging c) (Audio c)
           (mkSecurity (LivenessRequired (Security c)) (MatchThreshold (Security c))
                       (MaxAuthAttempts (Security c)) v).

(** The zero value [Config{}]. *)
Definition zeroConfig : Config :=
  mkConfig (mkService 0 0 "") (mkLogging "" "") (mkAudio false 0 "" "")
           (mkSecurity false F64.zero 0 0).

(** * File Loader: decoding *)

Module yaml.
Definition assign (s : setting) : Config → Config :=
  match s with
  | service_timeout v => set_Timeout v
  | service_retry_attempts v => set_RetryAttempts v
  | service_socket_path v => set_SocketPath v
  | logging_level v => set_Level v
  | logging_format v => set_Format v
  | audio_enabled v => set_Enabled v
  | audio_volume v => set_Volume v
  | audio_custom_sound_success v => set_CustomSoundSuccess v
  | audio_custom_sound_failure v => set_CustomSoundFailure v
  | security_liveness_required v => set_LivenessRequired v
  | security_match_threshold v => set_MatchThreshold v
  | security_max_auth_attempts v => set_MaxAuthAttempts v
  | security_lockout_duration v => set_LockoutDuration v
  end.

(** [yaml.Unmarshal(data, cfg)]: the keys present in the document are
    assigned to [*cfg]; every other field keeps the value it had. *)
Definition Unmarshal (data : contents) (cfg : Config) : result Config :=
  match data with
  | Malformed err => Err err
  | Document keys => Ok (fold_left (fun c s => assign s c) keys cfg)
  end.
End yaml.

(** * Merger *)

(** [if cond { result = assign(result) }] *)
Definition when (cond : bool) (f : Config → Config) (result : Config) : Config :=
  if cond then f result else result.

Definition mergeConfigs (base override : Config) : Config :=
  let result := base in
  (* Service *)
  let result := when (negb (Z.eqb (Timeout (Service override)) 0))
                  (set_Timeout (Timeout (Service override))) result in
  let result := when (negb (Z.eqb (RetryAttempts (Service override)) 0))
                  (set_RetryAttempts (RetryAttempts (Service override))) result in
  let result := when (negb (String.eqb (SocketPath (Service override)) ""))
                  (set_SocketPath (SocketPath (Service override))) result in
  (* Logging *)
  let result := when (negb (String.eqb (Level (Logging override)) ""))
                  (set_Level (Level (Logging override))) result in
  let result := when (negb (String.eqb (Format (Logging override)) ""))
                  (set_Format (Format (Logging override))) result in
  (* Audio *)
  let result := when (negb (Bool.eqb (Enabled (Audio override)) (Enabled (Audio base))))
                  (set_Enabled (Enabled (Audio override))) result in
  let result := when (negb (Z.eqb (Volume (Audio override)) 0))
                  (set_Volume (Volume (Audio override))) result in
  let result := when (negb (String.eqb (CustomSoundSuccess (Audio override)) ""))
                  (set_CustomSoundSuccess (CustomSoundSuccess (Audio override))) result in
  let result := when (negb (String.eqb (CustomSoundFailure (Audio override)) ""))
                  (set_CustomSoundFailure (CustomSoundFailure (Audio override))) result in
  (* Security *)
  let result := when (negb (Bool.eqb (LivenessRequired (Security override))
                                     (LivenessRequired (Security base))))
                  (set_LivenessRequired (LivenessRequired (Security override))) result in
  let result := when (F64.neqb (MatchThreshold (Security override)) F64.zero)
                  (set_MatchThreshold (MatchThreshold (Security override))) result in
  let result := when (negb (Z.eqb (MaxAuthAttempts (Security override)) 0))
                  (set_MaxAuthAttempts (MaxAuthAttempts (Security override))) result in
  let result := when (negb (Z.eqb (LockoutDuration (Security override)) 0))
                  (set_LockoutDuration (LockoutDuration (Security override))) result in
  result.

(** * Validator, Path Resolver and Loader Orchestrator *)

Notation "'let?' x ':=' e 'else' prefix 'in' k" :=
  (match e with
   | Ok x => k
   | Err err => Err (fmt.Errorf_w prefix err)
   end)
  (at level 10, x name, e at level 100, prefix at level 100, k at level 200,
   only parsing).

Section Package.
(** [strings.Map(unicode.ToUpper, s)] and [strings.Map(unicode.ToLower, s)],
    which [strings.ToUpper] and [strings.ToLower] fall back to on a string
    that is not pure ASCII. *)
Variables unicodeUpper unicodeLower : string → string.

(** The running system: its file system and its environment. *)
Variable w : OS.

Definition validLogLevels : gmap string bool :=
  {[ "DEBUG" := true; "INFO" := true; "WARN" := true; "ERROR" := true ]}.
Definition validLogFormats : gmap string bool :=
  {[ "json" := true; "text" := true ]}.

(** Indexing a [map[string]bool]: a missing key reads as [false]. *)
Definition index (m : gmap string bool) (key : string) : bool :=
  default false (m !! key).

(** [if cond { errs = append(errs, e) }] *)
Definition check (cond : bool) (e : error) (errs : list error) : list error :=
  if cond then (errs ++ [e])%list else errs.

(** The violations [Validate] collects, in order. *)
Definition violations (c : Config) : list error :=
  let errs := [] in
  (* Service *)
  let errs := check ((Timeout (Service c) <=? 0)%Z || (Timeout (Service c) >? 60)%Z)
                (errors.New "timeout must be between 1 and 60 seconds") errs in
  let errs := check ((RetryAttempts (Service c) <? 1)%Z || (RetryAttempts (Service c) >? 10)%Z)
                (errors.New "retry_attempts must be between 1 and 10") errs in
  let errs :=
    if String.eqb (SocketPath (Service c)) "" then
      (errs ++ [errors.New "socket_path must not be empty"])%list
    else if negb (filepath.IsAbs (SocketPath (Service c))) then
      (errs ++ [errors.New "socket_path must be an absolute path"])%list
    else errs in
  (* Logging *)
  let errs := check (negb (index validLogLevels
                             (strings.ToUpper unicodeUpper (Level (Logging c)))))
                (errors.New "log_level must be DEBUG, INFO, WARN, or ERROR") errs in
  let errs := check (negb (index validLogFormats
                             (strings.ToLower unicodeLower (Format (Logging c)))))
                (errors.New "log_format must be 'json' or 'text'") errs in
  (* Audio *)
  let errs := check ((Volume (Audio c) <? 0)%Z || (Volume (Audio c) >? 100)%Z)
                (errors.New "audio_volume must be between 0 and 100") errs in
  let errs := check (negb (String.eqb (CustomSoundSuccess (Audio c)) "")
                     && negb (os.Stat_ok w (CustomSoundSuccess (Audio c))))
                (fmt.Errorf_s "custom_sound_success file not found: "
                   (CustomSoundSuccess (Audio c))) errs in
  let errs := check (negb (String.eqb (CustomSoundFailure (Audio c)) "")
                     && negb (os.Stat_ok w (CustomSoundFailure (Audio c))))
                (fmt.Errorf_s "custom_sound_failure file not found: "
                   (CustomSoundFailure (Audio c))) errs in
  (* Security *)
  let errs := check (F64.ltb (MatchThreshold (Security c)) F64.zero
                     || F64.gtb (MatchThreshold (Security c)) F64.one)
                (errors.New "match_threshold must be between 0.0 and 1.0") errs in
  let errs := check ((MaxAuthAttempts (Security c) <? 1)%Z
                     || (MaxAuthAttempts (Security c) >? 20)%Z)
                (errors.New "max_auth_attempts must be between 1 and 20") errs in
  let errs := check ((LockoutDuration (Security c) <? 0)%Z
                     || (LockoutDuration (Security c) >? 3600)%Z)
                (errors.New "lockout_duration must be between 0 and 3600") errs in
  errs.

(** [Validate]: [None] is the nil error. *)
Definition Validate (c : Config) : option error :=
  let errs := violations c in
  if (0 <? length errs)%nat then errors.Join errs else None.

Definition expandPath (path : string) : result string :=
  let? path :=
    (if strings.HasPrefix path "~" then
       match os.UserHomeDir w with
       | Err err => Err err
       | Ok homeDir => Ok (filepath.Join [homeDir; strings.tail path])
       end
     else Ok path)
    else "failed to get user home directory: " in
  Ok (os.ExpandEnv w path).

(** [loadFromPath(path, cfg)] fills [*cfg]; the filled value is returned. *)
Definition loadFromPath (path : string) (cfg : Config) : result Config :=
  let? data := os.ReadFile w path else "failed to read file: " in
  let? cfg := yaml.Unmarshal data cfg else "failed to parse YAML: " in
  Ok cfg.

(** [if err := cfg.Validate(); err != nil { return nil, ... }; return cfg, nil] *)
Definition validated (cfg : Config) : result Config :=
  match Validate cfg with
  | Some err => Err (fmt.Errorf_w "configuration validation failed: " err)
  | None => Ok cfg
  end.

Definition Load : result Config :=
  let cfg := DefaultConfig in
  let? cfg :=
    (if os.Stat_ok w systemConfigPath then
       match loadFromPath systemConfigPath zeroConfig with
       | Err err => Err err
       | Ok systemCfg => Ok (mergeConfigs cfg systemCfg)
       end
     else Ok cfg)
    else "failed to load system config: " in
  let? userConfigPath := expandPath (filepath.Join ["~"; userConfigRelPath])
    else "failed to expand user config path: " in
  let? cfg :=
    (if os.Stat_ok w userConfigPath then
       match loadFromPath userConfigPath zeroConfig with
       | Err err => Err err
       | Ok userCfg => Ok (mergeConfigs cfg userCfg)
       end
     else Ok cfg)
    else "failed to load user config: " in
  validated cfg.

Definition LoadFromPath (path : string) : result Config :=
  let cfg := DefaultConfig in
  let? expandedPath := expandPath path
    else "failed to expand path " ++ path ++ ": " in
  let? cfg := loadFromPath expandedPath cfg
    else "failed to load config from " ++ expandedPath ++ ": " in
  validated cfg.

End Package.

(** * The merger on pointers *)

(** [mergeConfigs] takes and returns [*Config]. Here the heap is explicit:
    a finite map from addresses to [Config] values, with a computation
    failing where the Go code would dereference a pointer that holds no
    [Config]. *)
Module Ptr.
Abbreviation ptr := positive.
Abbreviation heap := (gmap positive Config).

Definition M (A : Type) : Type := heap → option (A * heap).

Definition ret {A} (a : A) : M A := fun h => Some (a, h).
Definition bind {A B} (m : M A) (k : A → M B) : M B :=
  fun h => match m h with
           | Some (a, h') => k a h'
           | None => None
           end.

Notation "'do' x <- m ; k" := (bind m (fun x => k))
  (at level 10, x name, m at level 100, k at level 200, only parsing).
Notation "m ;; k" := (bind m (fun _ => k))
  (at level 100, k at level 200, right associativity, only parsing).

(** [*p] *)
Definition load (p : ptr) : M Config :=
  fun h => match h !! p with
           | Some c => Some (c, h)
           | None => None
           end.

(** [*p = c] *)
Definition store (p : ptr) (c : Config) : M unit :=
  fun h => match h !! p with
           | Some _ => Some (tt, <[p := c]> h)
           | None => None
           end.

(** A variable whose address escapes lives at a fresh heap address. *)
Definition alloc (c : Config) : M ptr :=
  fun h => let p := fresh (dom h) in Some (p, <[p := c]> h).

(** [if cond { result.F = override.F }], where [assign o] stores the field
    [F] of [o]. *)
Definition merge_field (override result : ptr) (cond : bool)
    (assign : Config → Config → Config) : M unit :=
  if cond then
    do o <- load override;
    do r <- load result;
    store result (assign o r)
  else ret tt.

Definition mergeConfigs (base override : ptr) : M ptr :=
  do b <- load base;
  do result <- alloc b;
  (* Service *)
  do o <- load override;
  merge_field override result (negb (Z.eqb (Timeout (Service o)) 0))
    (fun o => set_Timeout (Timeout (Service o)));;
  do o <- load override;
  merge_field override result (negb (Z.eqb (RetryAttempts (Service o)) 0))
    (fun o => set_RetryAttempts (RetryAttempts (Service o)));;
  do o <- load override;
  merge_field override result (negb (String.eqb (SocketPath (Service o)) ""))
    (fun o => set_SocketPath (SocketPath (Service o)));;
  (* Logging *)
  do o <- load override;
  merge_field override result (negb (String.eqb (Level (Logging o)) ""))
    (fun o => set_Level (Level (Logging o)));;
  do o <- load override;
  merge_field override result (negb (String.eqb (Format (Logging o)) ""))
    (fun o => set_Format (Format (Logging o)));;
  (* Audio *)
  do o <- load override;
  do b <- load base;
  merge_field override result (negb (Bool.eqb (Enabled (Audio o)) (Enabled (Audio b))))
    (fun o => set_Enabled (Enabled (Audio o)));;
  do o <- load override;
  merge_field override result (negb (Z.eqb (Volume (Audio o)) 0))
    (fun o => set_Volume (Volume (Audio o)));;
  do o <- load override;
  merge_field override result (negb (String.eqb (CustomSoundSuccess (Audio o)) ""))
    (fun o => set_CustomSoundSuccess (CustomSoundSuccess (Audio o)));;
  do o <- load override;
  merge_field override result (negb (String.eqb (CustomSoundFailure (Audio o)) ""))
    (fun o => set_CustomSoundFailure (CustomSoundFailure (Audio o)));;
  (* Security *)
  do o <- load override;
  do b <- load base;
  merge_field override result
    (negb (Bool.eqb (LivenessRequired (Security o)) (LivenessRequired (Security b))))
    (fun o => set_LivenessRequired (LivenessRequired (Security o)));;
  do o <- load override;
  merge_field override result (F64.neqb (MatchThreshold (Security o)) F64.zero)
    (fun o => set_MatchThreshold (MatchThreshold (Security o)));;
  do o <- load override;
  merge_field override result (negb (Z.eqb (MaxAuthAttempts (Security o)) 0))
    (fun o => set_MaxAuthAttempts (MaxAuthAttempts (Security o)));;
  do o <- load override;
  merge_field override result (negb (Z.eqb (LockoutDuration (Security o)) 0))
    (fun o => set_LockoutDuration (LockoutDuration (Security o)));;
  ret result.
End Ptr.

(** * What an error message mentions *)

(** [mentions msg sub]: [sub] occurs in [msg] (Go's [strings.Contains]). *)
Fixpoint mentions (msg sub : string) : bool :=
  strings.HasPrefix msg sub
  || match msg with
     | EmptyString => false
     | String _ rest => mentions rest sub
     end.

(** The violations the examples of the specification are about. *)
Definition timeout_violation : error :=
  errors.New "timeout must be between 1 and 60 seconds".
Definition volume_violation : error :=
  errors.New "audio_volume must be between 0 and 100".
Definition format_violation : error :=
  errors.New "log_format must be 'json' or 'text'".
Definition threshold_violation : error :=
  errors.New "match_threshold must be between 0.0 and 1.0".

(** * The per-field merge policy *)

(** A field with a zero-value sentinel: the base's value is kept when the
    override leaves the field unset, and replaced otherwise. *)
Definition keeps_unless_set {A : Type} (unset : A → Prop)
    (base override result : A) : Prop :=
  (unset override → result = base) ∧ (¬ unset override → result = override).

(** A boolean field: the override's value is applied exactly when it
    differs from the base's. *)
Definition takes_when_differs (base override result : bool) : Prop :=
  (override ≠ base → result = override) ∧ (override = base → result = base).

Definition is_zero_int (v : int) : Prop := v = 0%Z.
Definition is_empty_string (v : string) : Prop := v = "".

Definition merge_policy (base override result : Config) : Prop :=
  keeps_unless_set is_zero_int (Timeout (Service base))
    (Timeout (Service override)) (Timeout (Service result))
  ∧ keeps_unless_set is_zero_int (RetryAttempts (Service base))
      (RetryAttempts (Service override)) (RetryAttempts (Service result))
  ∧ keeps_unless_set is_empty_string (SocketPath (Service base))
      (SocketPath (Service override)) (SocketPath (Service result))
  ∧ keeps_unless_set is_empty_string (Level (Logging base))
      (Level (Logging override)) (Level (Logging result))
  ∧ keeps_unless_set is_empty_string (Format (Logging base))
      (Format (Logging override)) (Format (Logging result))
  ∧ takes_when_differs (Enabled (Audio base))
      (Enabled (Audio override)) (Enabled (Audio result))
  ∧ keeps_unless_set is_zero_int (Volume (Audio base))
      (Volume (Audio override)) (Volume (Audio result))
  ∧ keeps_unless_set is_empty_string (CustomSoundSuccess (Audio base))
      (CustomSoundSuccess (Audio override)) (CustomSoundSuccess (Audio result))
  ∧ keeps_unless_set is_empty_string (CustomSoundFailure (Audio base))
      (CustomSoundFailure (Audio override)) (CustomSoundFailure (Audio result))
  ∧ takes_when_differs (LivenessRequired (Security base))
      (LivenessRequired (Security override)) (LivenessRequired (Security result))
  ∧ keeps_unless_set F64.is_zero (MatchThreshold (Security base))
      (MatchThreshold (Security override)) (MatchThreshold (Security result))
  ∧ keeps_unless_set is_zero_int (MaxAuthAttempts (Security base))
      (MaxAuthAttempts (Security override)) (MaxAuthAttempts (Security result))
  ∧ keeps_unless_set is_zero_int (LockoutDuration (Security base))
      (LockoutDuration (Security override)) (LockoutDuration (Security result)).

(** * Paths with one variable reference *)

Fixpoint no_dollar (s : string) : bool :=
  match s with
  | EmptyString => true
  | String c rest => negb (Ascii.eqb c "$"%char) && no_dollar rest
  end.

(** A variable name ends where the string ends or a byte that cannot be part
    of a name begins. *)
Definition ends_name (post : string) : bool :=
  match post with
  | EmptyString => true
  | String c _ => negb (expand.isAlphaNum c)
  end.

(** * Sample systems *)

Definition alice_env (key : string) : option string :=
  if String.eqb key "HOME" then Some "/home/alice" else None.

(** No configuration file anywhere; the home directory is [/home/alice]. *)
Definition bare_system : OS := mkOS (fun _ => None) alice_env.

Definition threshold_file : string := "/srv/linux-wave/threshold.yaml".

(** One file, whose only key is [security.match_threshold: 1.5]. *)
Definition threshold_system : OS :=
  mkOS (fun name =>
          if String.eqb name threshold_file
          then Some (Readable (Document [security_match_threshold F64.one_and_half]))
          else None)
       alice_env.

(** A Configuration that breaks the timeout and the volume constraints and
    no other. *)
Definition two_violations : Config :=
  set_Volume 150 (set_Timeout 0 GlossaryDefaults).

(** A Configuration whose success sound is a path that [bare_system] does
    not have. *)
Definition missing_sound : Config :=
  set_CustomSoundSuccess "/usr/share/sounds/ok.wav" GlossaryDefaults.

(** * Presenter *)

(** [sanitizePath] *)
Definition sanitizePath (path : string) : string :=
  if String.eqb path "" then "<not set>" else path.

(** The verbs of [fmt.Sprintf] that [String] uses: [%d] prints an integer
    in decimal, [%v] prints a boolean as [true] or [false], [%s] copies a
    string. *)
Definition verb_d (v : int) : string := pretty v.
Definition verb_v (v : bool) : string := if v then "true" else "false".

Section Presenter.
(** [%.2f]: the decimal rendering of a float64 with two digits after the
    point, which the [strconv] package computes. *)
Variable verb_f2 : float64 → string.

(** [(c *Config) String()] *)
Definition Config_String (c : Config) : string :=
  "Config{" ++ newline
  ++ "  Service: {Timeout: " ++ verb_d (Timeout (Service c))
  ++ "s, RetryAttempts: " ++ verb_d (RetryAttempts (Service c))
  ++ ", SocketPath: " ++ SocketPath (Service c) ++ "}" ++ newline
  ++ "  Logging: {Level: " ++ Level (Logging c)
  ++ ", Format: " ++ Format (Logging c) ++ "}" ++ newline
  ++ "  Audio: {Enabled: " ++ verb_v (Enabled (Audio c))
  ++ ", Volume: " ++ verb_d (Volume (Audio c))
  ++ ", CustomSuccess: " ++ sanitizePath (CustomSoundSuccess (Audio c))
  ++ ", CustomFailure: " ++ sanitizePath (CustomSoundFailure (Audio c))
  ++ "}" ++ newline
  ++ "  Security: {LivenessRequired: " ++ verb_v (LivenessRequired (Security c))
  ++ ", MatchThreshold: " ++ verb_f2 (MatchThreshold (Security c))
  ++ ", MaxAuthAttempts: " ++ verb_d (MaxAuthAttempts (Security c))
  ++ ", LockoutDuration: " ++ verb_d (LockoutDuration (Security c))
  ++ "s}" ++ newline
  ++ "}".
End Presenter.

(** * The constraints of the Validator, as propositions *)

Definition known_level (level : string) : Prop :=
  level = "DEBUG" ∨ level = "INFO" ∨ level = "WARN" ∨ level = "ERROR".
Definition known_format (format : string) : Prop :=
  format = "json" ∨ format = "text".

(** In range for the two comparisons [x < 0.0 || x > 1.0]: neither holds.
    A NaN is in range in this sense. *)
Definition threshold_in_range (x : float64) : Prop :=
  F64.ltb x F64.zero = false ∧ F64.gtb x F64.one = false.

(** Empty, or found by [os.Stat]. *)
Definition sound_ok (w : OS) (path : string) : Prop :=
  path = "" ∨ os.Stat_ok w path = true.

Definition satisfies_constraints (unicodeUpper unicodeLower : string → string)
    (w : OS) (c : Config) : Prop :=
  (1 <= Timeout (Service c) <= 60)%Z
  ∧ (1 <= RetryAttempts (Service c) <= 10)%Z
  ∧ filepath.IsAbs (SocketPath (Service c)) = true
  ∧ known_level (strings.ToUpper unicodeUpper (Level (Logging c)))
  ∧ known_format (strings.ToLower unicodeLower (Format (Logging c)))
  ∧ (0 <= Volume (Audio c) <= 100)%Z
  ∧ sound_ok w (CustomSoundSuccess (Audio c))
  ∧ sound_ok w (CustomSoundFailure (Audio c))
  ∧ threshold_in_range (MatchThreshold (Security c))
  ∧ (1 <= MaxAuthAttempts (Security c) <= 20)%Z
  ∧ (0 <= LockoutDuration (Security c) <= 3600)%Z.

Definition retry_violation : error :=
  errors.New "retry_attempts must be between 1 and 10".
Definition socket_empty_violation : error :=
  errors.New "socket_path must not be empty".
Definition socket_relative_violation : error :=
  errors.New "socket_path must be an absolute path".
Definition level_violation : error :=
  errors.New "log_level must be DEBUG, INFO, WARN, or ERROR".
Definition attempts_violation : error :=
  errors.New "max_auth_attempts must be between 1 and 20".
Definition lockout_violation : error :=
  errors.New "lockout_duration must be between 0 and 3600".

(** * Overlays *)

(** Every field with a zero-value sentinel is set. *)
Definition fully_set (o : Config) : Prop :=
  Timeout (Service o) ≠ 0%Z
  ∧ RetryAttempts (Service o) ≠ 0%Z
  ∧ SocketPath (Service o) ≠ ""
  ∧ Level (Logging o) ≠ ""
  ∧ Format (Logging o) ≠ ""
  ∧ Volume (Audio o) ≠ 0%Z
  ∧ CustomSoundSuccess (Audio o) ≠ ""
  ∧ CustomSoundFailure (Audio o) ≠ ""
  ∧ ¬ F64.is_zero (MatchThreshold (Security o))
  ∧ MaxAuthAttempts (Security o) ≠ 0%Z
  ∧ LockoutDuration (Security o) ≠ 0%Z.

(** No field with a zero-value sentinel is set. *)
Definition nothing_set (o : Config) : Prop :=
  Timeout (Service o) = 0%Z
  ∧ RetryAttempts (Service o) = 0%Z
  ∧ SocketPath (Service o) = ""
  ∧ Level (Logging o) = ""
  ∧ Format (Logging o) = ""
  ∧ Volume (Audio o) = 0%Z
  ∧ CustomSoundSuccess (Audio o) = ""
  ∧ CustomSoundFailure (Audio o) = ""
  ∧ F64.is_zero (MatchThreshold (Security o))
  ∧ MaxAuthAttempts (Security o) = 0%Z
  ∧ LockoutDuration (Security o) = 0%Z.

(** The keys of a document that assign a boolean field. *)
Definition is_audio_enabled (s : setting) : bool :=
  match s with audio_enabled _ => true | _ => false end.
Definition is_liveness_required (s : setting) : bool :=
  match s with security_liveness_required _ => true | _ => false end.

(** * Variable names *)

Fixpoint all_alnum (s : string) : bool :=
  match s with
  | EmptyString => true
  | String c rest => expand.isAlphaNum c && all_alnum rest
  end.

(** A name that [getShellName] reads by scanning alphanumerics: not empty,
    made of letters, digits and underscores, and not starting with a digit
    (a digit after the dollar sign is a one-byte special variable). *)
Definition plain_name (name : string) : bool :=
  match name with
  | EmptyString => false
  | String c _ => negb (expand.isShellSpecialVar c) && all_alnum name
  end.

(** * More sample systems *)

(** [HOME] is not set. *)
Definition homeless_system : OS := mkOS (fun _ => None) (fun _ => None).

(** A system file that chooses the text format and nothing else; no user
    file. *)
Definition text_format_system : OS :=
  mkOS (fun name =>
          if String.eqb name systemConfigPath
          then Some (Readable (Document [logging_format "text"]))
          else None)
       alice_env.

(** A system file that is not a YAML document. *)
Definition broken_system : OS :=
  mkOS (fun name =>
          if String.eqb name systemConfigPath
          then Some (Readable (Malformed (errors.New "yaml: did not find expected key")))
          else None)
       alice_env.

(** A system file choosing the text format and a timeout of 20, and a user
    file choosing a timeout of 30. *)
Definition layered_system : OS :=
  mkOS (fun name =>
          if String.eqb name systemConfigPath
          then Some (Readable (Document [logging_format "text"; service_timeout 20]))
          else if String.eqb name "/home/alice/.config/linux-wave/config.yaml"
          then Some (Readable (Document [service_timeout 30]))
          else None)
       alice_env.

(** A system where [SOUNDS] is set to a value with a dollar sign in it. *)
Definition sounds_system : OS :=
  mkOS (fun _ => None)
       (fun key => if String.eqb key "SOUNDS" then Some "/usr/share/$THEME" else None).

(** A system file choosing the text format, and a user file asking for a
    volume of 0. *)
Definition muted_system : OS :=
  mkOS (fun name =>
          if String.eqb name systemConfigPath
          then Some (Readable (Document [logging_format "text"]))
          else if String.eqb name "/home/alice/.config/linux-wave/config.yaml"
          then Some (Readable (Document [audio_volume 0]))
          else None)
       alice_env.

(** An overlay that sets every field. *)
Definition full_overlay : Config :=
  mkConfig (mkService 30 5 "/run/wave.sock") (mkLogging "DEBUG" "json")
           (mkAudio false 80 "/a.wav" "/b.wav")
           (mkSecurity false F64.one 5 60).

(** * Lemmas on messages *)

Lemma HasPrefix_app (p s : string) : strings.HasPrefix (p ++ s) p = true.
Proof.
  induction p as [|c p IH]; simpl; [reflexivity|].
  rewrite Ascii.eqb_refl. exact IH.
Qed.

Lemma HasPrefix_inv (s p : string) :
  strings.HasPrefix s p = true → ∃ post, s = p ++ post.
Proof.
  revert s. induction p as [|c p IH]; intros s H.
  - exists s. reflexivity.
  - destruct s as [|d s]; simpl in H; [discriminate|].
    destruct (Ascii.eqb_spec d c) as [->|]; [|discriminate].
    destruct (IH s H) as [post ->]. exists post. reflexivity.
Qed.

Lemma string_app_assoc (a b c : string) : (a ++ b) ++ c = a ++ (b ++ c).
Proof. induction a as [|x a IH]; simpl; [reflexivity | by rewrite IH]. Qed.

Lemma string_app_nil_r (a : string) : a ++ "" = a.
Proof. induction a as [|x a IH]; simpl; [reflexivity | by rewrite IH]. Qed.

Lemma mentions_unfold (msg sub : string) :
  mentions msg sub =
  strings.HasPrefix msg sub
  || match msg with
     | EmptyString => false
     | String _ rest => mentions rest sub
     end.
Proof. destruct msg; reflexivity. Qed.

Lemma mentions_app (pre sub post : string) : mentions (pre ++ sub ++ post) sub = true.
Proof.
  induction pre as [|c pre IH]; simpl.
  - rewrite mentions_unfold, HasPrefix_app. reflexivity.
  - rewrite IH. apply orb_true_r.
Qed.

Lemma mentions_spec (msg sub : string) :
  mentions msg sub = true ↔ ∃ pre post, msg = pre ++ sub ++ post.
Proof.
  split.
  - induction msg as [|c msg IH]; simpl; intros H.
    + rewrite orb_false_r in H. apply HasPrefix_inv in H as [post ->].
      exists "", post. reflexivity.
    + apply orb_true_iff in H as [H|H].
      * apply HasPrefix_inv in H as [post ->]. exists "", post. reflexivity.
      * destruct (IH H) as (pre & post & ->). exists (String c pre), post. reflexivity.
  - intros (pre & post & ->). apply mentions_app.
Qed.

Lemma mentions_self (s : string) : mentions s s = true.
Proof. apply mentions_spec. exists "", "". simpl. by rewrite string_app_nil_r. Qed.

Lemma mentions_extend (a msg b sub : string) :
  mentions msg sub = true → mentions (a ++ msg ++ b) sub = true.
Proof.
  rewrite !mentions_spec. intros (pre & post & ->).
  exists (a ++ pre), (post ++ b). by rewrite !string_app_assoc.
Qed.

Lemma mentions_suffix (a msg sub : string) :
  mentions msg sub = true → mentions (a ++ msg) sub = true.
Proof.
  intros H. rewrite <- (string_app_nil_r msg). by apply mentions_extend.
Qed.

Lemma mentions_Join (lines : list string) (sep line sub : string) :
  In line lines → mentions line sub = true →
  mentions (strings.Join lines sep) sub = true.
Proof.
  intros Hin Hm. induction lines as [|l lines IH]; [destruct Hin|].
  destruct lines as [|l' lines].
  - destruct Hin as [->|[]]. exact Hm.
  - change (strings.Join (l :: l' :: lines) sep)
      with (l ++ sep ++ strings.Join (l' :: lines) sep).
    destruct Hin as [->|Hin].
    + apply (mentions_extend "" line). exact Hm.
    + rewrite <- string_app_assoc. apply mentions_suffix. by apply IH.
Qed.

Lemma mentions_joinError (errs : list error) (e : error) (sub : string) :
  In e errs → mentions (Error e) sub = true →
  mentions (Error (joinError errs)) sub = true.
Proof.
  intros Hin Hm. simpl. apply (mentions_Join _ _ (Error e)); [|exact Hm].
  apply in_map. exact Hin.
Qed.

(** * Properties of the Validator *)

Lemma check_keeps (cond : bool) (e e' : error) (errs : list error) :
  In e errs → In e (check cond e' errs).
Proof.
  intros H. unfold check. destruct cond; [|exact H].
  apply in_or_app. left. exact H.
Qed.

Lemma check_adds (cond : bool) (e : error) (errs : list error) :
  cond = true → In e (check cond e errs).
Proof.
  intros ->. unfold check. apply in_or_app. right. left. reflexivity.
Qed.

Lemma branch_keeps (a b : bool) (e x y : error) (errs : list error) :
  In e errs →
  In e (if a then (errs ++ [x])%list else if b then (errs ++ [y])%list else errs).
Proof.
  intros H. destruct a; [|destruct b]; try exact H; apply in_or_app; left; exact H.
Qed.

Lemma branch_adds_first (a b : bool) (x y : error) (errs : list error) :
  a = true →
  In x (if a then (errs ++ [x])%list else if b then (errs ++ [y])%list else errs).
Proof. intros ->. apply in_or_app. right. left. reflexivity. Qed.

Lemma branch_adds_second (a b : bool) (x y : error) (errs : list error) :
  a = false → b = true →
  In y (if a then (errs ++ [x])%list else if b then (errs ++ [y])%list else errs).
Proof. intros -> ->. apply in_or_app. right. left. reflexivity. Qed.

(** Walks down the chain of checks to the one that appends the error in the
    goal, where [tac] has to show that its condition holds. *)
Ltac find_check tac :=
  unfold violations; cbv zeta;
  repeat first
    [ apply check_adds; solve [tac]
    | apply check_keeps
    | apply branch_keeps ].

Section Validator.
Variables unicodeUpper unicodeLower : string → string.
Variable w : OS.

Local Abbreviation violations_of := (violations unicodeUpper unicodeLower w).
Local Abbreviation Validate_of := (Validate unicodeUpper unicodeLower w).

Lemma Validate_nonempty (c : Config) (e : error) :
  In e (violations_of c) → Validate_of c = Some (joinError (violations_of c)).
Proof.
  unfold Validate. destruct (violations_of c); [intros []|reflexivity].
Qed.

Lemma Validate_nil (c : Config) :
  violations_of c = [] → Validate_of c = None.
Proof.
  unfold Validate. intros ->. reflexivity.
Qed.

Lemma timeout_out_of_range (c : Config) :
  (Timeout (Service c) <= 0 ∨ 60 < Timeout (Service c))%Z →
  In timeout_violation (violations_of c).
Proof.
  intros H. find_check ltac:(apply orb_true_iff; lia).
Qed.

Lemma volume_out_of_range (c : Config) :
  (Volume (Audio c) < 0 ∨ 100 < Volume (Audio c))%Z →
  In volume_violation (violations_of c).
Proof.
  intros H. find_check ltac:(apply orb_true_iff; lia).
Qed.

Lemma success_sound_missing (c : Config) :
  CustomSoundSuccess (Audio c) ≠ "" →
  os.Stat_ok w (CustomSoundSuccess (Audio c)) = false →
  In (fmt.Errorf_s "custom_sound_success file not found: "
        (CustomSoundSuccess (Audio c))) (violations_of c).
Proof.
  intros Hne Hstat.
  find_check ltac:(rewrite Hstat; apply andb_true_iff; split; [|reflexivity];
                   apply negb_true_iff, String.eqb_neq; exact Hne).
Qed.

Lemma failure_sound_missing (c : Config) :
  CustomSoundFailure (Audio c) ≠ "" →
  os.Stat_ok w (CustomSoundFailure (Audio c)) = false →
  In (fmt.Errorf_s "custom_sound_failure file not found: "
        (CustomSoundFailure (Audio c))) (violations_of c).
Proof.
  intros Hne Hstat.
  find_check ltac:(rewrite Hstat; apply andb_true_iff; split; [|reflexivity];
                   apply negb_true_iff, String.eqb_neq; exact Hne).
Qed.

(** No check is skipped: whichever other constraints are violated, each
    violated constraint has its error in the list. *)
Lemma violations_complete (c : Config) :
  ((RetryAttempts (Service c) < 1 ∨ 10 < RetryAttempts (Service c))%Z →
     In (errors.New "retry_attempts must be between 1 and 10") (violations_of c))
  ∧ (SocketPath (Service c) = "" →
     In (errors.New "socket_path must not be empty") (violations_of c))
  ∧ (SocketPath (Service c) ≠ "" → filepath.IsAbs (SocketPath (Service c)) = false →
     In (errors.New "socket_path must be an absolute path") (violations_of c))
  ∧ (index validLogLevels (strings.ToUpper unicodeUpper (Level (Logging c))) = false →
     In (errors.New "log_level must be DEBUG, INFO, WARN, or ERROR") (violations_of c))
  ∧ (index validLogFormats (strings.ToLower unicodeLower (Format (Logging c))) = false →
     In format_violation (violations_of c))
  ∧ (F64.ltb (MatchThreshold (Security c)) F64.zero = true
     ∨ F64.gtb (MatchThreshold (Security c)) F64.one = true →
     In threshold_violation (violations_of c))
  ∧ ((MaxAuthAttempts (Security c) < 1 ∨ 20 < MaxAuthAttempts (Security c))%Z →
     In (errors.New "max_auth_attempts must be between 1 and 20") (violations_of c))
  ∧ ((LockoutDuration (Security c) < 0 ∨ 3600 < LockoutDuration (Security c))%Z →
     In (errors.New "lockout_duration must be between 0 and 3600") (violations_of c)).
Proof.
  repeat match goal with |- _ ∧ _ => split end.
  - intros H. find_check ltac:(apply orb_true_iff; lia).
  - intros H. unfold violations; cbv zeta. repeat apply check_keeps.
    apply branch_adds_first. rewrite H. reflexivity.
  - intros H1 H2. unfold violations; cbv zeta. repeat apply check_keeps.
    apply branch_adds_second; [by apply String.eqb_neq | by rewrite H2].
  - intros H. find_check ltac:(rewrite H; reflexivity).
  - intros H. find_check ltac:(rewrite H; reflexivity).
  - intros H. find_check ltac:(apply orb_true_iff; exact H).
  - intros H. find_check ltac:(apply orb_true_iff; lia).
  - intros H. find_check ltac:(apply orb_true_iff; lia).
Qed.

End Validator.

(** * Properties of the Merger *)

Lemma when_other {A : Type} (proj : Config → A) (cond : bool)
    (f : Config → Config) (r : Config) (v : A) :
  (∀ x, proj (f x) = proj x) → proj r = v → proj (when cond f r) = v.
Proof. intros Hf <-. unfold when. destruct cond; [apply Hf | reflexivity]. Qed.

Lemma when_this {A : Type} (proj : Config → A) (cond : bool)
    (f : Config → Config) (r : Config) (v old : A) :
  (∀ x, proj (f x) = v) → proj r = old →
  proj (when cond f r) = if cond then v else old.
Proof. intros Hf <-. unfold when. destruct cond; [apply Hf | reflexivity]. Qed.

(** Reads one field of a merge result: every assignment to another field is
    stepped over, the assignment to the field itself decides. *)
Ltac read_field proj :=
  unfold mergeConfigs; cbv zeta;
  repeat first
    [ apply (when_other proj); [intros; reflexivity|]
    | apply (when_this proj); [intros; reflexivity|] ];
  reflexivity.

Section MergedFields.
Variables base override : Config.
Local Abbreviation result := (mergeConfigs base override).

Lemma merged_Timeout :
  Timeout (Service result) =
  if negb (Z.eqb (Timeout (Service override)) 0)
  then Timeout (Service override) else Timeout (Service base).
Proof. read_field (fun c => Timeout (Service c)). Qed.

Lemma merged_RetryAttempts :
  RetryAttempts (Service result) =
  if negb (Z.eqb (RetryAttempts (Service override)) 0)
  then RetryAttempts (Service override) else RetryAttempts (Service base).
Proof. read_field (fun c => RetryAttempts (Service c)). Qed.

Lemma merged_SocketPath :
  SocketPath (Service result) =
  if negb (String.eqb (SocketPath (Service override)) "")
  then SocketPath (Service override) else SocketPath (Service base).
Proof. read_field (fun c => SocketPath (Service c)). Qed.

Lemma merged_Level :
  Level (Logging result) =
  if negb (String.eqb (Level (Logging override)) "")
  then Level (Logging override) else Level (Logging base).
Proof. read_field (fun c => Level (Logging c)). Qed.

Lemma merged_Format :
  Format (Logging result) =
  if negb (String.eqb (Format (Logging override)) "")
  then Format (Logging override) else Format (Logging base).
Proof. read_field (fun c => Format (Logging c)). Qed.

Lemma merged_Enabled :
  Enabled (Audio result) =
  if negb (Bool.eqb (Enabled (Audio override)) (Enabled (Audio base)))
  then Enabled (Audio override) else Enabled (Audio base).
Proof. read_field (fun c => Enabled (Audio c)). Qed.

Lemma merged_Volume :
  Volume (Audio result) =
  if negb (Z.eqb (Volume (Audio override)) 0)
  then Volume (Audio override) else Volume (Audio base).
Proof. read_field (fun c => Volume (Audio c)). Qed.

Lemma merged_CustomSoundSuccess :
  CustomSoundSuccess (Audio result) =
  if negb (String.eqb (CustomSoundSuccess (Audio override)) "")
  then CustomSoundSuccess (Audio override) else CustomSoundSuccess (Audio base).
Proof. read_field (fun c => CustomSoundSuccess (Audio c)). Qed.

Lemma merged_CustomSoundFailure :
  CustomSoundFailure (Audio result) =
  if negb (String.eqb (CustomSoundFailure (Audio override)) "")
  then CustomSoundFailure (Audio override) else CustomSoundFailure (Audio base).
Proof. read_field (fun c => CustomSoundFailure (Audio c)). Qed.

Lemma merged_LivenessRequired :
  LivenessRequired (Security result) =
  if negb (Bool.eqb (LivenessRequired (Security override))
                    (LivenessRequired (Security base)))
  then LivenessRequired (Security override) else LivenessRequired (Security base).
Proof. read_field (fun c => LivenessRequired (Security c)). Qed.

Lemma merged_MatchThreshold :
  MatchThreshold (Security result) =
  if F64.neqb (MatchThreshold (Security override)) F64.zero
  then MatchThreshold (Security override) else MatchThreshold (Security base).
Proof. read_field (fun c => MatchThreshold (Security c)). Qed.

Lemma merged_MaxAuthAttempts :
  MaxAuthAttempts (Security result) =
  if negb (Z.eqb (MaxAuthAttempts (Security override)) 0)
  then MaxAuthAttempts (Security override) else MaxAuthAttempts (Security base).
Proof. read_field (fun c => MaxAuthAttempts (Security c)). Qed.

Lemma merged_LockoutDuration :
  LockoutDuration (Security result) =
  if negb (Z.eqb (LockoutDuration (Security override)) 0)
  then LockoutDuration (Security override) else LockoutDuration (Security base).
Proof. read_field (fun c => LockoutDuration (Security c)). Qed.

End MergedFields.

Lemma int_field_policy (b o : int) :
  keeps_unless_set is_zero_int b o (if negb (Z.eqb o 0) then o else b).
Proof.
  unfold keeps_unless_set, is_zero_int.
  destruct (Z.eqb_spec o 0) as [->|Hne]; simpl; split; intros H;
    first [reflexivity | contradiction | (exfalso; apply H; reflexivity)].
Qed.

Lemma string_field_policy (b o : string) :
  keeps_unless_set is_empty_string b o (if negb (String.eqb o "") then o else b).
Proof.
  unfold keeps_unless_set, is_empty_string.
  destruct (String.eqb_spec o "") as [->|Hne]; simpl; split; intros H;
    first [reflexivity | contradiction | (exfalso; apply H; reflexivity)].
Qed.

Lemma bool_field_policy (b o : bool) :
  takes_when_differs b o (if negb (Bool.eqb o b) then o else b).
Proof. unfold takes_when_differs. destruct b, o; simpl; split; congruence. Qed.

(** [x != 0] on a float64 is false exactly on the two signed zeros; NaN, the
    infinities and every finite non-zero number count as set. *)
Lemma F64_neqb_zero (x : float64) :
  F64.neqb x F64.zero = false ↔ F64.is_zero x.
Proof.
  unfold F64.neqb, F64.is_zero, F64.zero, F64.neg_zero.
  destruct x as [[]|[]| |[] m e]; simpl; split; intros H;
    try reflexivity; try discriminate; try (destruct H; discriminate); auto.
Qed.

Lemma float_field_policy (b o : float64) :
  keeps_unless_set F64.is_zero b o (if F64.neqb o F64.zero then o else b).
Proof.
  unfold keeps_unless_set.
  destruct (F64.neqb o F64.zero) eqn:E; split; intros H; try reflexivity.
  - apply F64_neqb_zero in H. congruence.
  - exfalso. apply H, F64_neqb_zero, E.
Qed.

(** C4. For every base and every override, [mergeConfigs] applies the
    per-field policy: each integer, string and float field keeps the base's
    value when the override's value is the zero value of its type (0, the
    empty string, a zero float) and takes the override's value otherwise;
    each of the two boolean fields takes the override's value exactly when
    it differs from the base's. *)
Theorem mergeConfigs_field_policy (base override : Config) :
  merge_policy base override (mergeConfigs base override).
Proof.
  unfold merge_policy.
  rewrite merged_Timeout, merged_RetryAttempts, merged_SocketPath,
    merged_Level, merged_Format, merged_Enabled, merged_Volume,
    merged_CustomSoundSuccess, merged_CustomSoundFailure,
    merged_LivenessRequired, merged_MatchThreshold, merged_MaxAuthAttempts,
    merged_LockoutDuration.
  repeat match goal with |- _ ∧ _ => split end;
    first [ apply int_field_policy | apply string_field_policy
          | apply bool_field_policy | apply float_field_policy ].
Qed.

(** The float sentinel at its corners: a negative zero in the override
    counts as unset, a NaN as set. *)
Lemma mergeConfigs_negative_zero :
  MatchThreshold (Security (mergeConfigs DefaultConfig
                              (set_MatchThreshold F64.neg_zero zeroConfig)))
  = F64.lit_0_85.
Proof. reflexivity. Qed.

Lemma mergeConfigs_NaN :
  MatchThreshold (Security (mergeConfigs DefaultConfig
                              (set_MatchThreshold S754_nan zeroConfig)))
  = S754_nan.
Proof. reflexivity. Qed.

Lemma when_id (cond : bool) (f : Config → Config) (r : Config) :
  f r = r → when cond f r = r.
Proof. intros H. unfold when. destruct cond; [exact H | reflexivity]. Qed.

(** C10. Merging a Configuration with itself gives it back: for every [c],
    [mergeConfigs c c] equals [c] in every field of every section. *)
Theorem mergeConfigs_idempotent (c : Config) : mergeConfigs c c = c.
Proof.
  unfold mergeConfigs. cbv zeta.
  repeat match goal with
  | |- context [when ?cond ?f c] =>
      rewrite (when_id cond f c)
        by (destruct c as [[] [] [] []]; reflexivity)
  end.
  reflexivity.
Qed.

(** ** The merger on pointers *)

Section PtrMerge.

Lemma bind_load {A : Type} (p : Ptr.ptr) (c : Config) (k : Config → Ptr.M A) (h : Ptr.heap) :
  h !! p = Some c → Ptr.bind (Ptr.load p) k h = k c h.
Proof. intros H. unfold Ptr.bind, Ptr.load. rewrite H. reflexivity. Qed.

Lemma bind_load_behind {A : Type} (p result : Ptr.ptr) (c r : Config)
    (k : Config → Ptr.M A) (h : Ptr.heap) :
  p ≠ result → h !! p = Some c →
  Ptr.bind (Ptr.load p) k (<[result := r]> h) = k c (<[result := r]> h).
Proof.
  intros Hne H. apply bind_load. rewrite lookup_insert_ne by congruence. exact H.
Qed.

Lemma bind_alloc {A : Type} (c : Config) (k : Ptr.ptr → Ptr.M A) (h : Ptr.heap) :
  Ptr.bind (Ptr.alloc c) k h = k (fresh (dom h)) (<[fresh (dom h) := c]> h).
Proof. reflexivity. Qed.

Lemma bind_merge_field {A : Type} (override result : Ptr.ptr) (o r : Config)
    (cond : bool) (assign : Config → Config → Config) (k : unit → Ptr.M A) (h : Ptr.heap) :
  override ≠ result → h !! override = Some o →
  Ptr.bind (Ptr.merge_field override result cond assign) k (<[result := r]> h)
  = k tt (<[result := when cond (assign o) r]> h).
Proof.
  intros Hne H. unfold Ptr.merge_field, when. destruct cond; [|reflexivity].
  unfold Ptr.bind, Ptr.load, Ptr.store.
  rewrite lookup_insert_ne by congruence. rewrite H.
  rewrite lookup_insert_eq. rewrite lookup_insert_eq, insert_insert_eq.
  reflexivity.
Qed.

Lemma fresh_unallocated (h : Ptr.heap) : h !! fresh (dom h) = None.
Proof. apply not_elem_of_dom, is_fresh. Qed.

(** On a heap that holds [b] at [base] and [o] at [override], the merger
    allocates a fresh address, leaves there what the merger on values
    computes from [b] and [o], and writes nowhere else. *)
Lemma mergeConfigs_run (h : Ptr.heap) (base override : Ptr.ptr) (b o : Config) :
  h !! base = Some b → h !! override = Some o →
  Ptr.mergeConfigs base override h
  = Some (fresh (dom h), <[fresh (dom h) := mergeConfigs b o]> h).
Proof.
  intros Hb Ho.
  assert (Hnb : base ≠ fresh (dom h)).
  { intros E. rewrite E, fresh_unallocated in Hb. discriminate. }
  assert (Hno : override ≠ fresh (dom h)).
  { intros E. rewrite E, fresh_unallocated in Ho. discriminate. }
  unfold Ptr.mergeConfigs.
  rewrite (bind_load base b) by assumption. rewrite bind_alloc.
  repeat first
    [ rewrite (bind_load_behind override _ o) by assumption
    | rewrite (bind_load_behind base _ b) by assumption
    | rewrite (bind_merge_field override _ o) by assumption ].
  reflexivity.
Qed.

End PtrMerge.

(** C9. For every base and every override, [mergeConfigs] returns a freshly
    constructed Configuration and leaves both of its inputs unchanged in
    every field of every section: the returned address was not allocated
    before the call, it holds the merged value afterwards, and the heap is
    the same as before at every other address, those of the inputs
    included (whether or not they are the same address). *)
Theorem mergeConfigs_fresh_and_inputs_unchanged
    (h : Ptr.heap) (base override : Ptr.ptr) (b o : Config) :
  h !! base = Some b → h !! override = Some o →
  ∃ (result : Ptr.ptr) (h' : Ptr.heap),
    Ptr.mergeConfigs base override h = Some (result, h')
    ∧ h !! result = None
    ∧ h' !! result = Some (mergeConfigs b o)
    ∧ h' !! base = Some b
    ∧ h' !! override = Some o
    ∧ ∀ p : Ptr.ptr, p ≠ result → h' !! p = h !! p.
Proof.
  intros Hb Ho.
  exists (fresh (dom h)), (<[fresh (dom h) := mergeConfigs b o]> h).
  pose proof (fresh_unallocated h) as Hfresh.
  split; [by apply mergeConfigs_run|].
  split; [exact Hfresh|].
  split; [apply lookup_insert_eq|].
  split; [rewrite lookup_insert_ne by congruence; exact Hb|].
  split; [rewrite lookup_insert_ne by congruence; exact Ho|].
  intros p Hp. by rewrite lookup_insert_ne.
Qed.

(** An instance: the defaults at address 1, an empty overlay at address 2. *)
Lemma mergeConfigs_fresh_and_inputs_unchanged_witness :
  ∃ (result : Ptr.ptr) (h' : Ptr.heap),
    Ptr.mergeConfigs 1 2 {[ 1%positive := DefaultConfig; 2%positive := zeroConfig ]}
      = Some (result, h')
    ∧ ({[ 1%positive := DefaultConfig; 2%positive := zeroConfig ]} : Ptr.heap) !! result = None
    ∧ h' !! result = Some (mergeConfigs DefaultConfig zeroConfig)
    ∧ h' !! 1%positive = Some DefaultConfig
    ∧ h' !! 2%positive = Some zeroConfig
    ∧ ∀ p : Ptr.ptr, p ≠ result →
        h' !! p = ({[ 1%positive := DefaultConfig; 2%positive := zeroConfig ]} : Ptr.heap) !! p.
Proof.
  apply (mergeConfigs_fresh_and_inputs_unchanged
           {[ 1%positive := DefaultConfig; 2%positive := zeroConfig ]}
           1%positive 2%positive DefaultConfig zeroConfig);
    reflexivity.
Defined.

(** * Properties of the Defaults Provider, the Validator and the Loader *)

(** The literal 0.85 denotes the binary64 nearest to 85/100: the distance
    between the mantissa and 0.85 * 2^53 is at most half a unit. *)
Lemma lit_0_85_nearest :
  match F64.lit_0_85 with
  | S754_finite false m e =>
      e = (-53)%Z ∧ (2 ^ 52 <= Z.pos m < 2 ^ 53)%Z
      ∧ (Z.abs (100 * Z.pos m - 85 * 2 ^ 53) <= 50)%Z
  | _ => False
  end.
Proof. simpl. split; [reflexivity|]. split; lia. Qed.

(** C2. The Defaults Provider does not return the glossary's baseline: its
    log format is ["test"], where the glossary (with the comment on that
    line, and the Validator) has ["text"]; every other field agrees. *)
Theorem DefaultConfig_format_is_not_text :
  Format (Logging DefaultConfig) = "test"
  ∧ DefaultConfig ≠ GlossaryDefaults
  ∧ set_Format "text" DefaultConfig = GlossaryDefaults.
Proof.
  split; [reflexivity|]. split; [|reflexivity].
  intros E. apply (f_equal (fun c => Format (Logging c))) in E. discriminate E.
Qed.

Section Loader.
Variables unicodeUpper unicodeLower : string → string.

Local Abbreviation Validate_in := (Validate unicodeUpper unicodeLower).
Local Abbreviation violations_in := (violations unicodeUpper unicodeLower).
Local Abbreviation Load_in := (Load unicodeUpper unicodeLower).
Local Abbreviation LoadFromPath_in := (LoadFromPath unicodeUpper unicodeLower).

(** The glossary's baseline passes validation on every system. *)
Lemma Validate_GlossaryDefaults (w : OS) : Validate_in w GlossaryDefaults = None.
Proof. reflexivity. Qed.

(** C1. [Validate] applied to [DefaultConfig()] does not succeed: on every
    system it returns the log-format violation, for the format ["test"] of
    the defaults. *)
Theorem Validate_DefaultConfig_fails (w : OS) :
  Validate_in w DefaultConfig = Some (joinError [format_violation])
  ∧ Validate_in w DefaultConfig ≠ None.
Proof. split; [reflexivity | discriminate]. Qed.

(** [Load] where neither configuration file is found. *)
Lemma Load_without_files (w : OS) (userConfigPath : string) :
  os.Stat_ok w systemConfigPath = false →
  expandPath w (filepath.Join ["~"; userConfigRelPath]) = Ok userConfigPath →
  os.Stat_ok w userConfigPath = false →
  Load_in w = validated unicodeUpper unicodeLower w DefaultConfig.
Proof.
  intros Hsys Hpath Huser. unfold Load. rewrite Hsys, Hpath, Huser. reflexivity.
Qed.

(** C3. With neither the system nor the user configuration file on the
    file system, [Load()] does not return the defaults: it returns the
    validation error for the log format of the defaults. *)
Theorem Load_without_files_fails :
  os.Stat_ok bare_system systemConfigPath = false
  ∧ expandPath bare_system (filepath.Join ["~"; userConfigRelPath])
    = Ok "/home/alice/.config/linux-wave/config.yaml"
  ∧ os.Stat_ok bare_system "/home/alice/.config/linux-wave/config.yaml" = false
  ∧ Load_in bare_system
    = Err (fmt.Errorf_w "configuration validation failed: "
             (joinError [format_violation]))
  ∧ Load_in bare_system ≠ Ok DefaultConfig.
Proof.
  assert (Load_in bare_system
          = Err (fmt.Errorf_w "configuration validation failed: "
                   (joinError [format_violation]))) as E.
  { rewrite (Load_without_files bare_system
               "/home/alice/.config/linux-wave/config.yaml"); reflexivity. }
  split; [reflexivity|]. split; [reflexivity|]. split; [reflexivity|].
  split; [exact E | rewrite E; discriminate].
Qed.

(** C5. [Validate] collects every violation: for a Configuration with
    [Service.Timeout = 0] and [Audio.Volume = 150] the returned error joins
    a list that holds both the timeout and the volume violation, and its
    message mentions both. *)
Theorem Validate_reports_timeout_and_volume (w : OS) (c : Config) :
  Timeout (Service c) = 0%Z → Volume (Audio c) = 150%Z →
  ∃ errs : list error,
    Validate_in w c = Some (joinError errs)
    ∧ In timeout_violation errs
    ∧ In volume_violation errs
    ∧ mentions (Error (joinError errs)) (Error timeout_violation) = true
    ∧ mentions (Error (joinError errs)) (Error volume_violation) = true.
Proof.
  intros Ht Hv. exists (violations_in w c).
  assert (In timeout_violation (violations_in w c)) as H1.
  { apply timeout_out_of_range. lia. }
  assert (In volume_violation (violations_in w c)) as H2.
  { apply volume_out_of_range. lia. }
  split; [exact (Validate_nonempty _ _ _ _ _ H1)|].
  split; [exact H1|]. split; [exact H2|].
  split.
  - apply (mentions_joinError _ timeout_violation); [exact H1 | apply mentions_self].
  - apply (mentions_joinError _ volume_violation); [exact H2 | apply mentions_self].
Qed.

(** With every other field valid the report is exactly these two. *)
Lemma Validate_two_violations (w : OS) :
  Validate_in w two_violations
  = Some (joinError [timeout_violation; volume_violation]).
Proof. reflexivity. Qed.

(** C6. [LoadFromPath] on a file whose only key is
    [security.match_threshold: 1.5] returns a validation error that names
    [match_threshold] and, because of the format of the defaults,
    [log_format] before it. *)
Theorem LoadFromPath_threshold_names_log_format :
  LoadFromPath_in threshold_system threshold_file
  = Err (fmt.Errorf_w "configuration validation failed: "
           (joinError [format_violation; threshold_violation]))
  ∧ (∀ e, LoadFromPath_in threshold_system threshold_file = Err e →
          mentions (Error e) "match_threshold" = true
          ∧ mentions (Error e) "log_format" = true).
Proof.
  assert (LoadFromPath_in threshold_system threshold_file
          = Err (fmt.Errorf_w "configuration validation failed: "
                   (joinError [format_violation; threshold_violation]))) as E.
  { reflexivity. }
  split; [exact E|]. intros e He. rewrite E in He. injection He as <-.
  split; reflexivity.
Qed.

(** C8. For every Configuration with a non-empty custom sound path that
    does not exist on the file system, [Validate] fails, and the message
    of the returned error names that path. *)
Theorem Validate_names_missing_sound (w : OS) (c : Config) (path : string) :
  CustomSoundSuccess (Audio c) = path ∨ CustomSoundFailure (Audio c) = path →
  path ≠ "" →
  os.Stat_ok w path = false →
  ∃ e : error,
    Validate_in w c = Some e
    ∧ mentions (Error e) path = true
    ∧ (mentions (Error e) ("custom_sound_success file not found: " ++ path) = true
       ∨ mentions (Error e) ("custom_sound_failure file not found: " ++ path) = true).
Proof.
  intros Hpath Hne Hstat. exists (joinError (violations_in w c)).
  destruct Hpath as [<-|<-].
  - pose proof (success_sound_missing unicodeUpper unicodeLower w c Hne Hstat) as Hin.
    split; [exact (Validate_nonempty _ _ _ _ _ Hin)|].
    split; [|left]; apply (mentions_joinError _ _ _ Hin);
      change (Error (fmt.Errorf_s ?p ?s)) with (p ++ s).
    + apply mentions_suffix, mentions_self.
    + apply mentions_self.
  - pose proof (failure_sound_missing unicodeUpper unicodeLower w c Hne Hstat) as Hin.
    split; [exact (Validate_nonempty _ _ _ _ _ Hin)|].
    split; [|right]; apply (mentions_joinError _ _ _ Hin);
      change (Error (fmt.Errorf_s ?p ?s)) with (p ++ s).
    + apply mentions_suffix, mentions_self.
    + apply mentions_self.
Qed.

End Loader.

(** An instance of C5: the glossary's baseline with the two fields broken. *)
Lemma Validate_reports_timeout_and_volume_witness :
  ∃ errs : list error,
    Validate id id bare_system two_violations = Some (joinError errs)
    ∧ In timeout_violation errs
    ∧ In volume_violation errs
    ∧ mentions (Error (joinError errs)) (Error timeout_violation) = true
    ∧ mentions (Error (joinError errs)) (Error volume_violation) = true.
Proof.
  apply (Validate_reports_timeout_and_volume id id bare_system two_violations);
    reflexivity.
Defined.

(** An instance of C8: a success sound that the system does not have. *)
Lemma Validate_names_missing_sound_witness :
  ∃ e : error,
    Validate id id bare_system missing_sound = Some e
    ∧ mentions (Error e) "/usr/share/sounds/ok.wav" = true
    ∧ (mentions (Error e)
         ("custom_sound_success file not found: " ++ "/usr/share/sounds/ok.wav") = true
       ∨ mentions (Error e)
           ("custom_sound_failure file not found: " ++ "/usr/share/sounds/ok.wav") = true).
Proof.
  apply (Validate_names_missing_sound id id bare_system missing_sound
           "/usr/share/sounds/ok.wav").
  - left. reflexivity.
  - discriminate.
  - reflexivity.
Defined.

(** * Properties of the Path Resolver *)

Lemma expand_no_dollar (mapping : string → string) (s : string) :
  no_dollar s = true → expand.expand_loop mapping 0 s = s.
Proof.
  induction s as [|c s IH]; simpl; [reflexivity|].
  intros H. apply andb_true_iff in H as [Hc Hs].
  apply negb_true_iff in Hc. rewrite Hc. simpl. by rewrite IH.
Qed.

Lemma expand_prefix_no_dollar (mapping : string → string) (pre s : string) :
  no_dollar pre = true →
  expand.expand_loop mapping 0 (pre ++ s) = pre ++ expand.expand_loop mapping 0 s.
Proof.
  induction pre as [|c pre IH]; simpl; [reflexivity|].
  intros H. apply andb_true_iff in H as [Hc Hs].
  apply negb_true_iff in Hc. rewrite Hc. simpl. by rewrite IH.
Qed.

Lemma scan_alnum_stops (post : string) :
  ends_name post = true → expand.scan_alnum post = "".
Proof.
  destruct post as [|c post]; simpl; [reflexivity|].
  intros H. apply negb_true_iff in H. by rewrite H.
Qed.

(** A reference to [FOO], followed by something that is not part of the
    name, is replaced by the value the mapping gives it. *)
Lemma expand_FOO (mapping : string → string) (post : string) :
  ends_name post = true →
  expand.expand_loop mapping 0 ("$FOO" ++ post)
  = mapping "FOO" ++ expand.expand_loop mapping 0 post.
Proof.
  intros H.
  change ("$FOO" ++ post) with (String "$" (String "F" (String "O" (String "O" post)))).
  cbn [expand.expand_loop Ascii.eqb Bool.eqb andb negb strings.is_empty].
  assert (expand.getShellName (String "F" (String "O" (String "O" post)))
          = ("FOO", 3%nat)) as ->.
  { unfold expand.getShellName.
    change (Ascii.eqb "F" "{") with false.
    change (expand.isShellSpecialVar "F") with false.
    cbv iota.
    change (expand.scan_alnum (String "F" (String "O" (String "O" post))))
      with (String "F" (String "O" (String "O" (expand.scan_alnum post)))).
    rewrite (scan_alnum_stops post H). reflexivity. }
  reflexivity.
Qed.

(** C7. The Path Resolver expands the home marker and environment
    variables: with [HOME] set to [/home/alice], the path
    [~/.config/linux-wave/config.yaml] resolves to
    [/home/alice/.config/linux-wave/config.yaml]; and with [FOO] unset, a
    path in which [$FOO] is the only variable reference (and which does not
    start with the home marker) resolves, without error, to the same path
    with [$FOO] replaced by the empty string. *)
Theorem expandPath_home_and_unset_variable :
  (∀ w : OS,
     LookupEnv w "HOME" = Some "/home/alice" →
     expandPath w "~/.config/linux-wave/config.yaml"
     = Ok "/home/alice/.config/linux-wave/config.yaml")
  ∧ (∀ (w : OS) (pre post : string),
       LookupEnv w "FOO" = None →
       strings.HasPrefix (pre ++ "$FOO" ++ post) "~" = false →
       no_dollar pre = true → no_dollar post = true → ends_name post = true →
       expandPath w (pre ++ "$FOO" ++ post) = Ok (pre ++ "" ++ post)).
Proof.
  split.
  - intros w Hhome. unfold expandPath, os.UserHomeDir, os.Getenv.
    rewrite Hhome. reflexivity.
  - intros w pre post Hfoo Htilde Hpre Hpost Hend. unfold expandPath.
    rewrite Htilde. unfold os.ExpandEnv, expand.Expand.
    rewrite (expand_prefix_no_dollar _ pre _ Hpre).
    rewrite (expand_FOO _ post Hend).
    rewrite (expand_no_dollar _ post Hpost).
    unfold os.Getenv. rewrite Hfoo. reflexivity.
Qed.

(** An instance of C7 on [bare_system], where [HOME] is [/home/alice] and
    [FOO] is unset. *)
Lemma expandPath_home_and_unset_variable_witness :
  expandPath bare_system "~/.config/linux-wave/config.yaml"
  = Ok "/home/alice/.config/linux-wave/config.yaml"
  ∧ expandPath bare_system ("/opt/" ++ "$FOO" ++ "/sounds/ok.wav")
    = Ok ("/opt/" ++ "" ++ "/sounds/ok.wav").
Proof.
  split.
  - apply (proj1 expandPath_home_and_unset_variable bare_system). reflexivity.
  - apply (proj2 expandPath_home_and_unset_variable bare_system
             "/opt/" "/sounds/ok.wav"); reflexivity.
Defined.

(** Behind the home marker the path is joined and cleaned before the
    variables are expanded. *)
Lemma expandPath_home_then_variable :
  expandPath bare_system "~/$FOO/sounds/ok.wav" = Ok "/home/alice//sounds/ok.wav".
Proof. reflexivity. Qed.

(** * More on the Validator *)

Lemma index_levels (key : string) :
  index validLogLevels key = true ↔ known_level key.
Proof.
  unfold index, validLogLevels, known_level.
  destruct (decide (key = "DEBUG")) as [->|H1]; [split; [auto | reflexivity]|].
  destruct (decide (key = "INFO")) as [->|H2]; [split; [auto | reflexivity]|].
  destruct (decide (key = "WARN")) as [->|H3]; [split; [auto | reflexivity]|].
  destruct (decide (key = "ERROR")) as [->|H4]; [split; [auto | reflexivity]|].
  rewrite !lookup_insert_ne, lookup_singleton_ne by congruence. simpl.
  split; [discriminate | intros [?|[?|[?|?]]]; congruence].
Qed.

Lemma index_formats (key : string) :
  index validLogFormats key = true ↔ known_format key.
Proof.
  unfold index, validLogFormats, known_format.
  destruct (decide (key = "json")) as [->|H1]; [split; [auto | reflexivity]|].
  destruct (decide (key = "text")) as [->|H2]; [split; [auto | reflexivity]|].
  rewrite !lookup_insert_ne, lookup_singleton_ne by congruence. simpl.
  split; [discriminate | intros [?|?]; congruence].
Qed.

Lemma check_nil (cond : bool) (e : error) (errs : list error) :
  check cond e errs = [] ↔ cond = false ∧ errs = [].
Proof.
  unfold check. destruct cond.
  - split; [|intros [? _]; discriminate].
    intros H. apply app_eq_nil in H as [_ H]. discriminate.
  - split; [auto | intros [_ H]; exact H].
Qed.

Lemma branch_nil (a b : bool) (x y : error) (errs : list error) :
  (if a then (errs ++ [x])%list else if b then (errs ++ [y])%list else errs) = []
  ↔ a = false ∧ b = false ∧ errs = [].
Proof.
  destruct a; [|destruct b].
  - split; [|intros (? & _); discriminate].
    intros H. apply app_eq_nil in H as [_ H]. discriminate.
  - split; [|intros (_ & ? & _); discriminate].
    intros H. apply app_eq_nil in H as [_ H]. discriminate.
  - split; [auto | intros (_ & _ & H); exact H].
Qed.

Lemma in_check_inv (cond : bool) (e e' : error) (errs : list error) :
  In e (check cond e' errs) → (cond = true ∧ e' = e) ∨ In e errs.
Proof.
  unfold check. destruct cond; [|auto].
  intros H. apply in_app_or in H as [H|[H|[]]]; auto.
Qed.

Lemma in_branch_inv (a b : bool) (e x y : error) (errs : list error) :
  In e (if a then (errs ++ [x])%list else if b then (errs ++ [y])%list else errs) →
  (a = true ∧ x = e) ∨ (a = false ∧ b = true ∧ y = e) ∨ In e errs.
Proof.
  destruct a, b; auto; intros H; apply in_app_or in H as [H|[H|[]]]; auto.
Qed.

Lemma IsAbs_nonempty (path : string) :
  filepath.IsAbs path = true → String.eqb path "" = false.
Proof. destruct path; [discriminate | reflexivity]. Qed.

Lemma upper_of_lower (c : ascii) :
  strings.upper_byte (strings.lower_byte c) = strings.upper_byte c.
Proof. destruct c as [[] [] [] [] [] [] [] []]; reflexivity. Qed.

Lemma lower_of_upper (c : ascii) :
  strings.lower_byte (strings.upper_byte c) = strings.lower_byte c.
Proof. destruct c as [[] [] [] [] [] [] [] []]; reflexivity. Qed.

Lemma upper_of_upper (c : ascii) :
  strings.upper_byte (strings.upper_byte c) = strings.upper_byte c.
Proof. destruct c as [[] [] [] [] [] [] [] []]; reflexivity. Qed.

Lemma lower_of_lower (c : ascii) :
  strings.lower_byte (strings.lower_byte c) = strings.lower_byte c.
Proof. destruct c as [[] [] [] [] [] [] [] []]; reflexivity. Qed.

Lemma ascii_upper_byte (c : ascii) :
  strings.is_ascii_byte (strings.upper_byte c) = strings.is_ascii_byte c.
Proof. destruct c as [[] [] [] [] [] [] [] []]; reflexivity. Qed.

Lemma ascii_lower_byte (c : ascii) :
  strings.is_ascii_byte (strings.lower_byte c) = strings.is_ascii_byte c.
Proof. destruct c as [[] [] [] [] [] [] [] []]; reflexivity. Qed.

Lemma map_bytes_compose (f g h : ascii → ascii) (s : string) :
  (∀ c, f (g c) = h c) →
  strings.map_bytes f (strings.map_bytes g s) = strings.map_bytes h s.
Proof. intros H. induction s as [|c s IH]; simpl; [reflexivity | by rewrite H, IH]. Qed.

Lemma isASCII_map_bytes (f : ascii → ascii) (s : string) :
  (∀ c, strings.is_ascii_byte (f c) = strings.is_ascii_byte c) →
  strings.isASCII (strings.map_bytes f s) = strings.isASCII s.
Proof. intros H. induction s as [|c s IH]; simpl; [reflexivity | by rewrite H, IH]. Qed.

(** On an ASCII string, changing the case before [ToUpper] or [ToLower]
    changes nothing. *)
Lemma ToUpper_ignores_case (unicodeUpper : string → string) (s : string) :
  strings.isASCII s = true →
  strings.ToUpper unicodeUpper (strings.map_bytes strings.lower_byte s)
  = strings.ToUpper unicodeUpper s
  ∧ strings.ToUpper unicodeUpper (strings.map_bytes strings.upper_byte s)
    = strings.ToUpper unicodeUpper s.
Proof.
  intros H. unfold strings.ToUpper.
  rewrite !isASCII_map_bytes by auto using ascii_lower_byte, ascii_upper_byte.
  rewrite H. split; apply map_bytes_compose; auto using upper_of_lower, upper_of_upper.
Qed.

Lemma ToLower_ignores_case (unicodeLower : string → string) (s : string) :
  strings.isASCII s = true →
  strings.ToLower unicodeLower (strings.map_bytes strings.lower_byte s)
  = strings.ToLower unicodeLower s
  ∧ strings.ToLower unicodeLower (strings.map_bytes strings.upper_byte s)
    = strings.ToLower unicodeLower s.
Proof.
  intros H. unfold strings.ToLower.
  rewrite !isASCII_map_bytes by auto using ascii_lower_byte, ascii_upper_byte.
  rewrite H. split; apply map_bytes_compose; auto using lower_of_lower, lower_of_upper.
Qed.

Section ValidatorExtras.
Variables unicodeUpper unicodeLower : string → string.
Variable w : OS.

Local Abbreviation violations_at := (violations unicodeUpper unicodeLower w).
Local Abbreviation Validate_at := (Validate unicodeUpper unicodeLower w).

Lemma Validate_None_nil (c : Config) :
  Validate_at c = None ↔ violations_at c = [].
Proof.
  unfold Validate. destruct (violations_at c); simpl; split; congruence.
Qed.

(** The list of violations is empty exactly when every check's condition
    is false. *)
Lemma violations_nil (c : Config) :
  violations_at c = [] ↔
  ((Timeout (Service c) <=? 0)%Z || (Timeout (Service c) >? 60)%Z = false
   ∧ (RetryAttempts (Service c) <? 1)%Z || (RetryAttempts (Service c) >? 10)%Z = false
   ∧ String.eqb (SocketPath (Service c)) "" = false
   ∧ negb (filepath.IsAbs (SocketPath (Service c))) = false
   ∧ negb (index validLogLevels
             (strings.ToUpper unicodeUpper (Level (Logging c)))) = false
   ∧ negb (index validLogFormats
             (strings.ToLower unicodeLower (Format (Logging c)))) = false
   ∧ (Volume (Audio c) <? 0)%Z || (Volume (Audio c) >? 100)%Z = false
   ∧ negb (String.eqb (CustomSoundSuccess (Audio c)) "")
     && negb (os.Stat_ok w (CustomSoundSuccess (Audio c))) = false
   ∧ negb (String.eqb (CustomSoundFailure (Audio c)) "")
     && negb (os.Stat_ok w (CustomSoundFailure (Audio c))) = false
   ∧ F64.ltb (MatchThreshold (Security c)) F64.zero
     || F64.gtb (MatchThreshold (Security c)) F64.one = false
   ∧ (MaxAuthAttempts (Security c) <? 1)%Z
     || (MaxAuthAttempts (Security c) >? 20)%Z = false
   ∧ (LockoutDuration (Security c) <? 0)%Z
     || (LockoutDuration (Security c) >? 3600)%Z = false).
Proof.
  unfold violations. cbv zeta.
  rewrite !check_nil, branch_nil, !check_nil. tauto.
Qed.

Lemma range_check (v lo hi : Z) :
  (v <? lo)%Z || (v >? hi)%Z = false ↔ (lo <= v <= hi)%Z.
Proof. rewrite orb_false_iff, Z.gtb_ltb, !Z.ltb_ge. tauto. Qed.

Lemma timeout_check (v : Z) :
  (v <=? 0)%Z || (v >? 60)%Z = false ↔ (1 <= v <= 60)%Z.
Proof. rewrite orb_false_iff, Z.gtb_ltb, Z.leb_gt, Z.ltb_ge. lia. Qed.

Lemma sound_check (path : string) :
  negb (String.eqb path "") && negb (os.Stat_ok w path) = false ↔ sound_ok w path.
Proof.
  unfold sound_ok. destruct (os.Stat_ok w path);
    destruct (String.eqb_spec path "") as [E|Hne]; simpl; split; auto.
  intros [?|?]; [contradiction | discriminate].
Qed.

Lemma socket_check (path : string) :
  String.eqb path "" = false ∧ negb (filepath.IsAbs path) = false
  ↔ filepath.IsAbs path = true.
Proof.
  rewrite negb_false_iff. split; [tauto|].
  intros H. split; [apply IsAbs_nonempty|]; exact H.
Qed.

(** X1. [Validate] returns nil exactly when every constraint holds. *)
Theorem Validate_nil_iff_constraints (c : Config) :
  Validate_at c = None ↔ satisfies_constraints unicodeUpper unicodeLower w c.
Proof.
  rewrite Validate_None_nil, violations_nil. unfold satisfies_constraints.
  rewrite timeout_check, !range_check, !sound_check, !negb_false_iff,
    index_levels, index_formats, orb_false_iff.
  unfold threshold_in_range.
  pose proof (IsAbs_nonempty (SocketPath (Service c))). tauto.
Qed.

(** Every error in the list comes from a check whose condition holds. *)
Lemma violations_sound (c : Config) (e : error) :
  In e (violations_at c) →
  (timeout_violation = e
   ∧ (Timeout (Service c) <=? 0)%Z || (Timeout (Service c) >? 60)%Z = true)
  ∨ (retry_violation = e
     ∧ (RetryAttempts (Service c) <? 1)%Z || (RetryAttempts (Service c) >? 10)%Z = true)
  ∨ (socket_empty_violation = e ∧ String.eqb (SocketPath (Service c)) "" = true)
  ∨ (socket_relative_violation = e
     ∧ String.eqb (SocketPath (Service c)) "" = false
     ∧ negb (filepath.IsAbs (SocketPath (Service c))) = true)
  ∨ (level_violation = e
     ∧ negb (index validLogLevels
               (strings.ToUpper unicodeUpper (Level (Logging c)))) = true)
  ∨ (format_violation = e
     ∧ negb (index validLogFormats
               (strings.ToLower unicodeLower (Format (Logging c)))) = true)
  ∨ (volume_violation = e
     ∧ (Volume (Audio c) <? 0)%Z || (Volume (Audio c) >? 100)%Z = true)
  ∨ (fmt.Errorf_s "custom_sound_success file not found: "
       (CustomSoundSuccess (Audio c)) = e
     ∧ negb (String.eqb (CustomSoundSuccess (Audio c)) "")
       && negb (os.Stat_ok w (CustomSoundSuccess (Audio c))) = true)
  ∨ (fmt.Errorf_s "custom_sound_failure file not found: "
       (CustomSoundFailure (Audio c)) = e
     ∧ negb (String.eqb (CustomSoundFailure (Audio c)) "")
       && negb (os.Stat_ok w (CustomSoundFailure (Audio c))) = true)
  ∨ (threshold_violation = e
     ∧ F64.ltb (MatchThreshold (Security c)) F64.zero
       || F64.gtb (MatchThreshold (Security c)) F64.one = true)
  ∨ (attempts_violation = e
     ∧ (MaxAuthAttempts (Security c) <? 1)%Z
       || (MaxAuthAttempts (Security c) >? 20)%Z = true)
  ∨ (lockout_violation = e
     ∧ (LockoutDuration (Security c) <? 0)%Z
       || (LockoutDuration (Security c) >? 3600)%Z = true).
Proof.
  unfold violations. cbv zeta. intros H.
  repeat (apply in_check_inv in H as [H|H]; [tauto|]).
  apply in_branch_inv in H as [H|[H|H]]; [tauto | tauto |].
  repeat (apply in_check_inv in H as [H|H]; [tauto|]).
  destruct H.
Qed.

(** Splits what [violations_sound] gives for one error message: the checks
    with another message are dismissed, the check with this message leaves
    its condition in [Hc]. *)
Ltac which_check H :=
  apply violations_sound in H;
  repeat match type of H with
  | _ ∨ _ => destruct H as [H|H]
  end;
  destruct H as [He Hc];
  try discriminate He;
  try (unfold fmt.Errorf_s in He; injection He as He; simpl in He; discriminate He).

(** X2. A range violation is reported exactly when its field is out of
    range, whatever the other fields hold. *)
Theorem range_violations_exact (c : Config) :
  (In timeout_violation (violations_at c)
     ↔ (Timeout (Service c) < 1 ∨ 60 < Timeout (Service c))%Z)
  ∧ (In retry_violation (violations_at c)
     ↔ (RetryAttempts (Service c) < 1 ∨ 10 < RetryAttempts (Service c))%Z)
  ∧ (In volume_violation (violations_at c)
     ↔ (Volume (Audio c) < 0 ∨ 100 < Volume (Audio c))%Z)
  ∧ (In attempts_violation (violations_at c)
     ↔ (MaxAuthAttempts (Security c) < 1 ∨ 20 < MaxAuthAttempts (Security c))%Z)
  ∧ (In lockout_violation (violations_at c)
     ↔ (LockoutDuration (Security c) < 0 ∨ 3600 < LockoutDuration (Security c))%Z).
Proof.
  pose proof (violations_complete unicodeUpper unicodeLower w c)
    as (Hretry & _ & _ & _ & _ & _ & Hattempts & Hlockout).
  repeat match goal with |- _ ∧ _ => split end; split.
  - intros H. which_check H.
    apply orb_true_iff in Hc as [Hc|Hc];
      [apply Z.leb_le in Hc | rewrite Z.gtb_ltb in Hc; apply Z.ltb_lt in Hc]; lia.
  - intros H. apply timeout_out_of_range. lia.
  - intros H. which_check H.
    apply orb_true_iff in Hc as [Hc|Hc];
      [apply Z.ltb_lt in Hc | rewrite Z.gtb_ltb in Hc; apply Z.ltb_lt in Hc]; lia.
  - exact Hretry.
  - intros H. which_check H.
    apply orb_true_iff in Hc as [Hc|Hc];
      [apply Z.ltb_lt in Hc | rewrite Z.gtb_ltb in Hc; apply Z.ltb_lt in Hc]; lia.
  - apply volume_out_of_range.
  - intros H. which_check H.
    apply orb_true_iff in Hc as [Hc|Hc];
      [apply Z.ltb_lt in Hc | rewrite Z.gtb_ltb in Hc; apply Z.ltb_lt in Hc]; lia.
  - exact Hattempts.
  - intros H. which_check H.
    apply orb_true_iff in Hc as [Hc|Hc];
      [apply Z.ltb_lt in Hc | rewrite Z.gtb_ltb in Hc; apply Z.ltb_lt in Hc]; lia.
  - exact Hlockout.
Qed.

(** X3. The socket path draws at most one of its two errors: the empty-path
    error exactly for the empty path, the not-absolute error exactly for a
    non-empty path that does not start with a slash. *)
Theorem socket_violations_exclusive (c : Config) :
  (In socket_empty_violation (violations_at c) ↔ SocketPath (Service c) = "")
  ∧ (In socket_relative_violation (violations_at c)
     ↔ SocketPath (Service c) ≠ "" ∧ filepath.IsAbs (SocketPath (Service c)) = false)
  ∧ ¬ (In socket_empty_violation (violations_at c)
       ∧ In socket_relative_violation (violations_at c)).
Proof.
  pose proof (violations_complete unicodeUpper unicodeLower w c)
    as (_ & Hempty & Hrel & _).
  assert (In socket_empty_violation (violations_at c)
          → SocketPath (Service c) = "") as Hempty'.
  { intros H. which_check H. by apply String.eqb_eq. }
  assert (In socket_relative_violation (violations_at c)
          → SocketPath (Service c) ≠ ""
            ∧ filepath.IsAbs (SocketPath (Service c)) = false) as Hrel'.
  { intros H. which_check H. destruct Hc as [Hne Habs].
    split; [by apply String.eqb_neq | by apply negb_true_iff]. }
  split; [split; [exact Hempty' | exact Hempty]|].
  split; [split; [exact Hrel' | intros [? ?]; by apply Hrel]|].
  intros [H1 H2]. apply Hempty' in H1. apply Hrel' in H2 as [H2 _]. contradiction.
Qed.

(** The verdict depends on the level and the format only through
    [ToUpper] of the one and [ToLower] of the other. *)
Lemma violations_level (c : Config) (level : string) :
  strings.ToUpper unicodeUpper level
  = strings.ToUpper unicodeUpper (Level (Logging c)) →
  violations_at (set_Level level c) = violations_at c.
Proof.
  intros H. unfold violations. cbv zeta.
  cbn [set_Level Service Logging Audio Security Level Format]. rewrite H. reflexivity.
Qed.

Lemma violations_format (c : Config) (format : string) :
  strings.ToLower unicodeLower format
  = strings.ToLower unicodeLower (Format (Logging c)) →
  violations_at (set_Format format c) = violations_at c.
Proof.
  intros H. unfold violations. cbv zeta.
  cbn [set_Format Service Logging Audio Security Level Format]. rewrite H. reflexivity.
Qed.

(** X4. The checks of the log level and of the log format ignore ASCII
    case: writing an ASCII level or format in lower or in upper case does
    not change what [Validate] returns. *)
Theorem Validate_ignores_ascii_case (c : Config) :
  strings.isASCII (Level (Logging c)) = true →
  strings.isASCII (Format (Logging c)) = true →
  Validate_at (set_Level (strings.map_bytes strings.lower_byte (Level (Logging c))) c)
  = Validate_at c
  ∧ Validate_at (set_Level (strings.map_bytes strings.upper_byte (Level (Logging c))) c)
    = Validate_at c
  ∧ Validate_at (set_Format (strings.map_bytes strings.lower_byte (Format (Logging c))) c)
    = Validate_at c
  ∧ Validate_at (set_Format (strings.map_bytes strings.upper_byte (Format (Logging c))) c)
    = Validate_at c.
Proof.
  intros Hl Hf. unfold Validate.
  destruct (ToUpper_ignores_case unicodeUpper _ Hl) as [L1 L2].
  destruct (ToLower_ignores_case unicodeLower _ Hf) as [F1 F2].
  rewrite !violations_level, !violations_format by assumption. auto.
Qed.

(** X5. A NaN match threshold passes the range check, and so does a
    negative zero; the two infinities do not. A Configuration that
    [Validate] accepts is still accepted with its threshold replaced by
    NaN. *)
Theorem Validate_accepts_NaN_threshold (c : Config) :
  (Validate_at c = None → Validate_at (set_MatchThreshold S754_nan c) = None)
  ∧ (Validate_at c = None → Validate_at (set_MatchThreshold F64.neg_zero c) = None)
  ∧ In threshold_violation (violations_at (set_MatchThreshold (S754_infinity false) c))
  ∧ In threshold_violation (violations_at (set_MatchThreshold (S754_infinity true) c)).
Proof.
  split; [|split; [|split]].
  - rewrite !Validate_None_nil, !violations_nil.
    cbn [set_MatchThreshold Service Logging Audio Security MatchThreshold
         MaxAuthAttempts LockoutDuration]. tauto.
  - rewrite !Validate_None_nil, !violations_nil.
    cbn [set_MatchThreshold Service Logging Audio Security MatchThreshold
         MaxAuthAttempts LockoutDuration]. tauto.
  - apply violations_complete. right. reflexivity.
  - apply violations_complete. left. reflexivity.
Qed.

End ValidatorExtras.

(** X6. [Validate] looks at the file system only through [os.Stat] on the
    two custom sound paths: on two systems that agree there (or where the
    path is empty) it returns the same. *)
Theorem Validate_reads_only_sound_paths
    (unicodeUpper unicodeLower : string → string) (w w' : OS) (c : Config) :
  (CustomSoundSuccess (Audio c) = ""
   ∨ os.Stat_ok w (CustomSoundSuccess (Audio c))
     = os.Stat_ok w' (CustomSoundSuccess (Audio c))) →
  (CustomSoundFailure (Audio c) = ""
   ∨ os.Stat_ok w (CustomSoundFailure (Audio c))
     = os.Stat_ok w' (CustomSoundFailure (Audio c))) →
  Validate unicodeUpper unicodeLower w c = Validate unicodeUpper unicodeLower w' c.
Proof.
  intros H1 H2. unfold Validate, violations. cbv zeta.
  assert (∀ p, p = "" ∨ os.Stat_ok w p = os.Stat_ok w' p →
               negb (String.eqb p "") && negb (os.Stat_ok w p)
               = negb (String.eqb p "") && negb (os.Stat_ok w' p)) as E.
  { intros p [-> | ->]; reflexivity. }
  rewrite (E _ H1), (E _ H2). reflexivity.
Qed.

(** Instances of X4 and X6. *)
Lemma Validate_ignores_ascii_case_witness :
  Validate id id bare_system (set_Level "info" GlossaryDefaults)
  = Validate id id bare_system GlossaryDefaults
  ∧ Validate id id bare_system (set_Level "INFO" GlossaryDefaults)
    = Validate id id bare_system GlossaryDefaults
  ∧ Validate id id bare_system (set_Format "text" GlossaryDefaults)
    = Validate id id bare_system GlossaryDefaults
  ∧ Validate id id bare_system (set_Format "TEXT" GlossaryDefaults)
    = Validate id id bare_system GlossaryDefaults.
Proof.
  apply (Validate_ignores_ascii_case id id bare_system GlossaryDefaults);
    reflexivity.
Defined.

Lemma Validate_reads_only_sound_paths_witness :
  Validate id id bare_system missing_sound
  = Validate id id threshold_system missing_sound.
Proof.
  apply (Validate_reads_only_sound_paths id id bare_system threshold_system
           missing_sound).
  - right. reflexivity.
  - left. reflexivity.
Defined.

(** An instance of X5: the glossary's baseline with a NaN threshold. *)
Lemma Validate_accepts_NaN_threshold_witness :
  Validate id id bare_system (set_MatchThreshold S754_nan GlossaryDefaults) = None.
Proof.
  apply (proj1 (Validate_accepts_NaN_threshold id id bare_system GlossaryDefaults)).
  reflexivity.
Defined.

(** * More on the Merger *)

Lemma Config_ext (c d : Config) :
  Timeout (Service c) = Timeout (Service d) →
  RetryAttempts (Service c) = RetryAttempts (Service d) →
  SocketPath (Service c) = SocketPath (Service d) →
  Level (Logging c) = Level (Logging d) →
  Format (Logging c) = Format (Logging d) →
  Enabled (Audio c) = Enabled (Audio d) →
  Volume (Audio c) = Volume (Audio d) →
  CustomSoundSuccess (Audio c) = CustomSoundSuccess (Audio d) →
  CustomSoundFailure (Audio c) = CustomSoundFailure (Audio d) →
  LivenessRequired (Security c) = LivenessRequired (Security d) →
  MatchThreshold (Security c) = MatchThreshold (Security d) →
  MaxAuthAttempts (Security c) = MaxAuthAttempts (Security d) →
  LockoutDuration (Security c) = LockoutDuration (Security d) →
  c = d.
Proof.
  destruct c as [[] [] [] []], d as [[] [] [] []]. simpl. congruence.
Qed.

(** The merge result stands in the per-field policy to its arguments. *)
Lemma merge_policy_holds (base override : Config) :
  merge_policy base override (mergeConfigs base override).
Proof.
  unfold merge_policy.
  rewrite merged_Timeout, merged_RetryAttempts, merged_SocketPath,
    merged_Level, merged_Format, merged_Enabled, merged_Volume,
    merged_CustomSoundSuccess, merged_CustomSoundFailure,
    merged_LivenessRequired, merged_MatchThreshold, merged_MaxAuthAttempts,
    merged_LockoutDuration.
  repeat match goal with |- _ ∧ _ => split end;
    auto using int_field_policy, string_field_policy, bool_field_policy,
      float_field_policy.
Qed.

Lemma differing_bool (b o : bool) : (if negb (Bool.eqb o b) then o else b) = o.
Proof. destruct b, o; reflexivity. Qed.

(** X7. A merged boolean is always the override's: there is no way for an
    overlay to leave [Audio.Enabled] or [Security.LivenessRequired] to the
    base, so an overlay decoded from a document without these keys (where
    they are [false]) switches both off. *)
Theorem mergeConfigs_booleans_from_override (base override : Config) :
  Enabled (Audio (mergeConfigs base override)) = Enabled (Audio override)
  ∧ LivenessRequired (Security (mergeConfigs base override))
    = LivenessRequired (Security override).
Proof.
  rewrite merged_Enabled, merged_LivenessRequired. split; apply differing_bool.
Qed.

(** Keeping or taking a value by a sentinel test is associative. *)
Lemma pick_assoc {A : Type} (set : A → bool) (a b c : A) :
  (if set c then c else if set b then b else a)
  = (if set (if set c then c else b) then (if set c then c else b) else a).
Proof.
  destruct (set c) eqn:Ec; [by rewrite Ec|]. reflexivity.
Qed.

(** X8. Merging is associative: overlaying [o2] on the merge of [base] and
    [o1] gives what overlaying the merge of [o1] and [o2] on [base] gives. *)
Theorem mergeConfigs_assoc (base o1 o2 : Config) :
  mergeConfigs (mergeConfigs base o1) o2 = mergeConfigs base (mergeConfigs o1 o2).
Proof.
  apply Config_ext;
    rewrite ?merged_Timeout, ?merged_RetryAttempts, ?merged_SocketPath,
      ?merged_Level, ?merged_Format, ?merged_Enabled, ?merged_Volume,
      ?merged_CustomSoundSuccess, ?merged_CustomSoundFailure,
      ?merged_LivenessRequired, ?merged_MatchThreshold,
      ?merged_MaxAuthAttempts, ?merged_LockoutDuration;
    rewrite ?differing_bool;
    try reflexivity.
  - apply (pick_assoc (fun v => negb (Z.eqb v 0))).
  - apply (pick_assoc (fun v => negb (Z.eqb v 0))).
  - apply (pick_assoc (fun v => negb (String.eqb v ""))).
  - apply (pick_assoc (fun v => negb (String.eqb v ""))).
  - apply (pick_assoc (fun v => negb (String.eqb v ""))).
  - apply (pick_assoc (fun v => negb (Z.eqb v 0))).
  - apply (pick_assoc (fun v => negb (String.eqb v ""))).
  - apply (pick_assoc (fun v => negb (String.eqb v ""))).
  - apply (pick_assoc (fun v => F64.neqb v F64.zero)).
  - apply (pick_assoc (fun v => negb (Z.eqb v 0))).
  - apply (pick_assoc (fun v => negb (Z.eqb v 0))).
Qed.

(** X9. An override that sets every field replaces the base entirely. *)
Theorem mergeConfigs_full_override (base override : Config) :
  fully_set override → mergeConfigs base override = override.
Proof.
  intros (H1 & H2 & H3 & H4 & H5 & H6 & H7 & H8 & H9 & H10 & H11).
  apply Config_ext;
    rewrite ?merged_Timeout, ?merged_RetryAttempts, ?merged_SocketPath,
      ?merged_Level, ?merged_Format, ?merged_Enabled, ?merged_Volume,
      ?merged_CustomSoundSuccess, ?merged_CustomSoundFailure,
      ?merged_LivenessRequired, ?merged_MatchThreshold,
      ?merged_MaxAuthAttempts, ?merged_LockoutDuration;
    rewrite ?differing_bool; try reflexivity;
    first
      [ apply (proj2 (int_field_policy _ _)); assumption
      | apply (proj2 (string_field_policy _ _)); assumption
      | apply (proj2 (float_field_policy _ _)); assumption ].
Qed.

Lemma mergeConfigs_full_override_witness :
  mergeConfigs DefaultConfig full_overlay = full_overlay.
Proof.
  apply (mergeConfigs_full_override DefaultConfig full_overlay).
  unfold fully_set, F64.is_zero. simpl.
  repeat split; try discriminate; intros [H|H]; discriminate H.
Defined.

(** X10. An override that sets no field changes nothing but the two
    booleans, which it always carries over. *)
Theorem mergeConfigs_empty_override (base override : Config) :
  nothing_set override →
  mergeConfigs base override
  = set_LivenessRequired (LivenessRequired (Security override))
      (set_Enabled (Enabled (Audio override)) base).
Proof.
  intros (H1 & H2 & H3 & H4 & H5 & H6 & H7 & H8 & H9 & H10 & H11).
  apply Config_ext;
    rewrite ?merged_Timeout, ?merged_RetryAttempts, ?merged_SocketPath,
      ?merged_Level, ?merged_Format, ?merged_Enabled, ?merged_Volume,
      ?merged_CustomSoundSuccess, ?merged_CustomSoundFailure,
      ?merged_LivenessRequired, ?merged_MatchThreshold,
      ?merged_MaxAuthAttempts, ?merged_LockoutDuration;
    rewrite ?differing_bool; try reflexivity;
    first
      [ apply (proj1 (int_field_policy _ _)); assumption
      | apply (proj1 (string_field_policy _ _)); assumption
      | apply (proj1 (float_field_policy _ _)); assumption ].
Qed.

Lemma mergeConfigs_empty_override_witness :
  mergeConfigs GlossaryDefaults zeroConfig
  = set_LivenessRequired false (set_Enabled false GlossaryDefaults).
Proof.
  apply (mergeConfigs_empty_override GlossaryDefaults zeroConfig).
  unfold nothing_set, F64.is_zero. simpl. repeat split; auto.
Defined.

Lemma int_stays_set (b o : int) :
  b ≠ 0%Z → (if negb (Z.eqb o 0) then o else b) ≠ 0%Z.
Proof. intros Hb. destruct (Z.eqb_spec o 0); simpl; assumption. Qed.

Lemma string_stays_set (b o : string) :
  b ≠ "" → (if negb (String.eqb o "") then o else b) ≠ "".
Proof. intros Hb. destruct (String.eqb_spec o ""); simpl; assumption. Qed.

Lemma float_stays_set (b o : float64) :
  ¬ F64.is_zero b → ¬ F64.is_zero (if F64.neqb o F64.zero then o else b).
Proof.
  intros Hb. destruct (F64.neqb o F64.zero) eqn:E; [|exact Hb].
  intros H. apply F64_neqb_zero in H. congruence.
Qed.

(** X22. No override resets a field: an integer, string or float field
    that is not the zero value in the base is not the zero value in the
    merge result either. *)
Theorem mergeConfigs_never_resets (base override : Config) :
  (Timeout (Service base) ≠ 0%Z
     → Timeout (Service (mergeConfigs base override)) ≠ 0%Z)
  ∧ (RetryAttempts (Service base) ≠ 0%Z
     → RetryAttempts (Service (mergeConfigs base override)) ≠ 0%Z)
  ∧ (SocketPath (Service base) ≠ ""
     → SocketPath (Service (mergeConfigs base override)) ≠ "")
  ∧ (Level (Logging base) ≠ ""
     → Level (Logging (mergeConfigs base override)) ≠ "")
  ∧ (Format (Logging base) ≠ ""
     → Format (Logging (mergeConfigs base override)) ≠ "")
  ∧ (Volume (Audio base) ≠ 0%Z
     → Volume (Audio (mergeConfigs base override)) ≠ 0%Z)
  ∧ (CustomSoundSuccess (Audio base) ≠ ""
     → CustomSoundSuccess (Audio (mergeConfigs base override)) ≠ "")
  ∧ (CustomSoundFailure (Audio base) ≠ ""
     → CustomSoundFailure (Audio (mergeConfigs base override)) ≠ "")
  ∧ (¬ F64.is_zero (MatchThreshold (Security base))
     → ¬ F64.is_zero (MatchThreshold (Security (mergeConfigs base override))))
  ∧ (MaxAuthAttempts (Security base) ≠ 0%Z
     → MaxAuthAttempts (Security (mergeConfigs base override)) ≠ 0%Z)
  ∧ (LockoutDuration (Security base) ≠ 0%Z
     → LockoutDuration (Security (mergeConfigs base override)) ≠ 0%Z).
Proof.
  rewrite merged_Timeout, merged_RetryAttempts, merged_SocketPath,
    merged_Level, merged_Format, merged_Volume, merged_CustomSoundSuccess,
    merged_CustomSoundFailure, merged_MatchThreshold, merged_MaxAuthAttempts,
    merged_LockoutDuration.
  repeat match goal with |- _ ∧ _ => split end;
    first [apply int_stays_set | apply string_stays_set | apply float_stays_set].
Qed.

Lemma mergeConfigs_never_resets_witness :
  Volume (Audio (mergeConfigs GlossaryDefaults zeroConfig)) ≠ 0%Z.
Proof.
  apply (proj1 (proj2 (proj2 (proj2 (proj2 (proj2
           (mergeConfigs_never_resets GlossaryDefaults zeroConfig))))))).
  discriminate.
Defined.

(** * More on the Loader Orchestrator *)

Lemma assign_keeps_Enabled (s : setting) (c : Config) :
  is_audio_enabled s = false → Enabled (Audio (yaml.assign s c)) = Enabled (Audio c).
Proof. destruct s; simpl; intros H; try reflexivity; discriminate H. Qed.

Lemma assign_keeps_LivenessRequired (s : setting) (c : Config) :
  is_liveness_required s = false →
  LivenessRequired (Security (yaml.assign s c)) = LivenessRequired (Security c).
Proof. destruct s; simpl; intros H; try reflexivity; discriminate H. Qed.

(** Decoding a document leaves a boolean alone when its key is absent. *)
Lemma decode_keeps_Enabled (keys : list setting) (c : Config) :
  existsb is_audio_enabled keys = false →
  Enabled (Audio (fold_left (fun c s => yaml.assign s c) keys c)) = Enabled (Audio c).
Proof.
  revert c. induction keys as [|s keys IH]; intros c H; simpl; [reflexivity|].
  simpl in H. apply orb_false_iff in H as [Hs Hk].
  rewrite (IH _ Hk). by apply assign_keeps_Enabled.
Qed.

Lemma decode_keeps_LivenessRequired (keys : list setting) (c : Config) :
  existsb is_liveness_required keys = false →
  LivenessRequired (Security (fold_left (fun c s => yaml.assign s c) keys c))
  = LivenessRequired (Security c).
Proof.
  revert c. induction keys as [|s keys IH]; intros c H; simpl; [reflexivity|].
  simpl in H. apply orb_false_iff in H as [Hs Hk].
  rewrite (IH _ Hk). by apply assign_keeps_LivenessRequired.
Qed.

Lemma Error_Errorf_w (prefix : string) (err : error) :
  Error (fmt.Errorf_w prefix err) = prefix ++ Error err.
Proof. reflexivity. Qed.

Section LoaderExtras.
Variables unicodeUpper unicodeLower : string → string.
Variable w : OS.

Local Abbreviation Validate_on := (Validate unicodeUpper unicodeLower w).
Local Abbreviation validated_on := (validated unicodeUpper unicodeLower w).
Local Abbreviation Load_on := (Load unicodeUpper unicodeLower w).
Local Abbreviation LoadFromPath_on := (LoadFromPath unicodeUpper unicodeLower w).

Lemma validated_Ok (cfg c : Config) :
  validated_on cfg = Ok c ↔ cfg = c ∧ Validate_on cfg = None.
Proof.
  unfold validated. destruct (Validate_on cfg); split.
  - discriminate.
  - intros [_ ?]. discriminate.
  - intros E. injection E as <-. auto.
  - intros [<- _]. reflexivity.
Qed.

(** The stages of [Load] that lead to a result. *)
Lemma Load_Ok (c : Config) :
  Load_on = Ok c →
  ∃ (base : Config) (userConfigPath : string),
    (if os.Stat_ok w systemConfigPath
     then ∃ systemCfg, loadFromPath w systemConfigPath zeroConfig = Ok systemCfg
                       ∧ base = mergeConfigs DefaultConfig systemCfg
     else base = DefaultConfig)
    ∧ expandPath w (filepath.Join ["~"; userConfigRelPath]) = Ok userConfigPath
    ∧ (if os.Stat_ok w userConfigPath
       then ∃ userCfg, loadFromPath w userConfigPath zeroConfig = Ok userCfg
                       ∧ c = mergeConfigs base userCfg
       else c = base)
    ∧ Validate_on c = None.
Proof.
  unfold Load. intros H.
  destruct (os.Stat_ok w systemConfigPath) eqn:Hsys.
  - destruct (loadFromPath w systemConfigPath zeroConfig) as [s|] eqn:Hs;
      [|discriminate].
    destruct (expandPath w (filepath.Join ["~"; userConfigRelPath])) as [p|] eqn:Hp;
      [|discriminate].
    exists (mergeConfigs DefaultConfig s), p.
    split; [eauto|]. split; [reflexivity|].
    destruct (os.Stat_ok w p) eqn:Hu.
    + destruct (loadFromPath w p zeroConfig) as [u|] eqn:Hlu; [|discriminate].
      apply validated_Ok in H as [<- Hv]. eauto.
    + apply validated_Ok in H as [<- Hv]. auto.
  - destruct (expandPath w (filepath.Join ["~"; userConfigRelPath])) as [p|] eqn:Hp;
      [|discriminate].
    exists DefaultConfig, p.
    split; [reflexivity|]. split; [reflexivity|].
    destruct (os.Stat_ok w p) eqn:Hu.
    + destruct (loadFromPath w p zeroConfig) as [u|] eqn:Hlu; [|discriminate].
      apply validated_Ok in H as [<- Hv]. eauto.
    + apply validated_Ok in H as [<- Hv]. auto.
Qed.

(** The stages of [LoadFromPath] that lead to a result. *)
Lemma LoadFromPath_Ok (path : string) (c : Config) :
  LoadFromPath_on path = Ok c →
  ∃ expandedPath : string,
    expandPath w path = Ok expandedPath
    ∧ loadFromPath w expandedPath DefaultConfig = Ok c
    ∧ Validate_on c = None.
Proof.
  unfold LoadFromPath. intros H.
  destruct (expandPath w path) as [p|] eqn:Hp; [|discriminate].
  destruct (loadFromPath w p DefaultConfig) as [cfg|] eqn:Hl; [|discriminate].
  apply validated_Ok in H as [<- Hv]. eauto.
Qed.

(** What [loadFromPath] returns for a document. *)
Lemma loadFromPath_Document (path : string) (keys : list setting) (cfg c : Config) :
  entry w path = Some (Readable (Document keys)) →
  loadFromPath w path cfg = Ok c →
  c = fold_left (fun c s => yaml.assign s c) keys cfg.
Proof.
  unfold loadFromPath, os.ReadFile. intros ->. simpl. congruence.
Qed.

(** X11. Both entry points return only Configurations that [Validate]
    accepts. *)
Theorem loaders_return_validated (c : Config) :
  (Load_on = Ok c → Validate_on c = None)
  ∧ (∀ path, LoadFromPath_on path = Ok c → Validate_on c = None).
Proof.
  split.
  - intros H. apply Load_Ok in H as (? & ? & _ & _ & _ & H). exact H.
  - intros path H. apply LoadFromPath_Ok in H as (? & _ & _ & H). exact H.
Qed.

(** X12. Without a home directory ([HOME] unset or empty) [Load] never
    returns a Configuration, even when the system file alone would do; if
    the system stage passes, the error is the one of the path expansion. *)
Theorem Load_needs_home :
  os.Getenv w "HOME" = "" →
  (∀ c, Load_on ≠ Ok c)
  ∧ (os.Stat_ok w systemConfigPath = false →
     ∃ e, Load_on = Err e
          ∧ Error e = "failed to expand user config path: "
                      ++ "failed to get user home directory: "
                      ++ "$HOME is not defined").
Proof.
  intros Hhome.
  assert (∃ e, expandPath w (filepath.Join ["~"; userConfigRelPath]) = Err e
               ∧ Error e = "failed to get user home directory: "
                           ++ "$HOME is not defined") as (e & He & Hmsg).
  { unfold expandPath, os.UserHomeDir.
    change (filepath.Join ["~"; userConfigRelPath])
      with "~/.config/linux-wave/config.yaml".
    rewrite Hhome. simpl. eauto. }
  split.
  - intros c H. apply Load_Ok in H as (? & ? & _ & H & _). congruence.
  - intros Hsys. unfold Load. rewrite Hsys, He.
    eexists. split; [reflexivity|]. rewrite Error_Errorf_w, Hmsg. reflexivity.
Qed.

(** X13. A system file that exists but cannot be read or decoded aborts
    [Load] at once, whatever the user file and the environment are. *)
Theorem Load_aborts_on_broken_system_file (err : error) :
  (entry w systemConfigPath = Some (Unreadable err) →
   ∃ e, Load_on = Err e
        ∧ Error e = "failed to load system config: " ++ "failed to read file: "
                    ++ Error err)
  ∧ (entry w systemConfigPath = Some (Readable (Malformed err)) →
     ∃ e, Load_on = Err e
          ∧ Error e = "failed to load system config: " ++ "failed to parse YAML: "
                      ++ Error err).
Proof.
  split; intros H; unfold Load, os.Stat_ok, loadFromPath, os.ReadFile;
    rewrite H; eexists; (split; [reflexivity|]);
    rewrite !Error_Errorf_w; reflexivity.
Qed.

(** X14. [LoadFromPath] on a path where there is no file is an error (where
    [Load] skips a missing file). *)
Theorem LoadFromPath_missing_file (path expandedPath : string) :
  expandPath w path = Ok expandedPath →
  entry w expandedPath = None →
  ∃ e, LoadFromPath_on path = Err e
       ∧ strings.HasPrefix (Error e)
           ("failed to load config from " ++ expandedPath ++ ": "
            ++ "failed to read file: ") = true.
Proof.
  intros Hp He. unfold LoadFromPath, loadFromPath, os.ReadFile. rewrite Hp, He.
  eexists. split; [reflexivity|]. rewrite !Error_Errorf_w.
  rewrite <- !string_app_assoc. apply HasPrefix_app.
Qed.

(** X15. When the user file is there, [Load] returns the merge of the user
    overlay over the result of the system stage, so every field follows
    the merge policy with the user overlay as the override. *)
Theorem Load_user_overlay_last (userConfigPath : string) (userCfg c : Config) :
  expandPath w (filepath.Join ["~"; userConfigRelPath]) = Ok userConfigPath →
  os.Stat_ok w userConfigPath = true →
  loadFromPath w userConfigPath zeroConfig = Ok userCfg →
  Load_on = Ok c →
  ∃ base : Config,
    c = mergeConfigs base userCfg
    ∧ merge_policy base userCfg c
    ∧ (base = DefaultConfig
       ∨ ∃ systemCfg, loadFromPath w systemConfigPath zeroConfig = Ok systemCfg
                      ∧ base = mergeConfigs DefaultConfig systemCfg).
Proof.
  intros Hp Hstat Hu H.
  apply Load_Ok in H as (base & p & Hbase & Hp' & Hc & _).
  rewrite Hp in Hp'. injection Hp' as <-. rewrite Hstat in Hc.
  destruct Hc as (u & Hu' & ->). rewrite Hu in Hu'. injection Hu' as <-.
  exists base. split; [reflexivity|]. split; [apply merge_policy_holds|].
  destruct (os.Stat_ok w systemConfigPath); [right|left]; exact Hbase.
Qed.

(** X16. [Load] switches off the booleans that the user file does not
    mention: the overlay is decoded into a zero Configuration, where both
    are [false], and a merged boolean is always the overlay's. *)
Theorem Load_drops_unmentioned_booleans
    (userConfigPath : string) (keys : list setting) (c : Config) :
  expandPath w (filepath.Join ["~"; userConfigRelPath]) = Ok userConfigPath →
  entry w userConfigPath = Some (Readable (Document keys)) →
  existsb is_audio_enabled keys = false →
  existsb is_liveness_required keys = false →
  Load_on = Ok c →
  Enabled (Audio c) = false ∧ LivenessRequired (Security c) = false.
Proof.
  intros Hp He Ha Hl H.
  apply Load_Ok in H as (base & p & _ & Hp' & Hc & _).
  rewrite Hp in Hp'. injection Hp' as <-.
  unfold os.Stat_ok in Hc. rewrite He in Hc. destruct Hc as (u & Hu & ->).
  apply (loadFromPath_Document _ keys) in Hu; [|exact He]. subst u.
  rewrite merged_Enabled, merged_LivenessRequired, !differing_bool.
  rewrite (decode_keeps_Enabled _ _ Ha), (decode_keeps_LivenessRequired _ _ Hl).
  split; reflexivity.
Qed.

(** X17. [LoadFromPath] decodes the file over the defaults, so the
    booleans that the file does not mention keep their default, [true]. *)
Theorem LoadFromPath_keeps_unmentioned_booleans
    (path expandedPath : string) (keys : list setting) (c : Config) :
  expandPath w path = Ok expandedPath →
  entry w expandedPath = Some (Readable (Document keys)) →
  existsb is_audio_enabled keys = false →
  existsb is_liveness_required keys = false →
  LoadFromPath_on path = Ok c →
  Enabled (Audio c) = true ∧ LivenessRequired (Security c) = true.
Proof.
  intros Hp He Ha Hl H.
  apply LoadFromPath_Ok in H as (p & Hp' & Hc & _).
  rewrite Hp in Hp'. injection Hp' as <-.
  apply (loadFromPath_Document _ keys) in Hc; [|exact He]. subst c.
  rewrite (decode_keeps_Enabled _ _ Ha), (decode_keeps_LivenessRequired _ _ Hl).
  split; reflexivity.
Qed.

(** X23. [Load] never returns a volume of 0, a lockout duration of 0 or a
    match threshold of zero, values the Validator accepts: the defaults
    are not zero, and an overlay's zero counts as unset. *)
Theorem Load_never_returns_zero (c : Config) :
  Load_on = Ok c →
  Volume (Audio c) ≠ 0%Z
  ∧ LockoutDuration (Security c) ≠ 0%Z
  ∧ ¬ F64.is_zero (MatchThreshold (Security c)).
Proof.
  intros H. apply Load_Ok in H as (base & p & Hbase & _ & Hc & _).
  assert (Volume (Audio base) ≠ 0%Z
          ∧ LockoutDuration (Security base) ≠ 0%Z
          ∧ ¬ F64.is_zero (MatchThreshold (Security base))) as (B1 & B2 & B3).
  { destruct (os.Stat_ok w systemConfigPath).
    - destruct Hbase as (s & _ & ->).
      rewrite merged_Volume, merged_LockoutDuration, merged_MatchThreshold.
      split; [|split].
      + apply int_stays_set. discriminate.
      + apply int_stays_set. discriminate.
      + apply float_stays_set. intros [E|E]; discriminate E.
    - subst base. split; [|split]; try discriminate.
      intros [E|E]; discriminate E. }
  destruct (os.Stat_ok w p).
  - destruct Hc as (u & _ & ->).
    rewrite merged_Volume, merged_LockoutDuration, merged_MatchThreshold.
    split; [|split].
    + by apply int_stays_set.
    + by apply int_stays_set.
    + by apply float_stays_set.
  - subst c. auto.
Qed.

End LoaderExtras.

(** Instances of X11 to X17. *)
Lemma loaders_return_validated_witness :
  Validate id id text_format_system
    (mergeConfigs DefaultConfig (set_Format "text" zeroConfig)) = None.
Proof.
  apply (proj1 (loaders_return_validated id id text_format_system
                  (mergeConfigs DefaultConfig (set_Format "text" zeroConfig)))).
  reflexivity.
Defined.

Lemma Load_needs_home_witness :
  Load id id homeless_system ≠ Ok GlossaryDefaults.
Proof.
  apply (proj1 (Load_needs_home id id homeless_system eq_refl) GlossaryDefaults).
Defined.

Lemma Load_aborts_on_broken_system_file_witness :
  ∃ e, Load id id broken_system = Err e
       ∧ Error e = "failed to load system config: " ++ "failed to parse YAML: "
                   ++ Error (errors.New "yaml: did not find expected key").
Proof.
  apply (proj2 (Load_aborts_on_broken_system_file id id broken_system
                  (errors.New "yaml: did not find expected key"))).
  reflexivity.
Defined.

Lemma LoadFromPath_missing_file_witness :
  ∃ e, LoadFromPath id id bare_system "/nowhere/config.yaml" = Err e
       ∧ strings.HasPrefix (Error e)
           ("failed to load config from " ++ "/nowhere/config.yaml" ++ ": "
            ++ "failed to read file: ") = true.
Proof.
  apply (LoadFromPath_missing_file id id bare_system
           "/nowhere/config.yaml" "/nowhere/config.yaml");
    reflexivity.
Defined.

Lemma Load_user_overlay_last_witness :
  ∃ base : Config,
    set_Timeout 30 (mergeConfigs DefaultConfig
                      (set_Timeout 20 (set_Format "text" zeroConfig)))
    = mergeConfigs base (set_Timeout 30 zeroConfig)
    ∧ merge_policy base (set_Timeout 30 zeroConfig)
        (set_Timeout 30 (mergeConfigs DefaultConfig
                           (set_Timeout 20 (set_Format "text" zeroConfig))))
    ∧ (base = DefaultConfig
       ∨ ∃ systemCfg,
           loadFromPath layered_system systemConfigPath zeroConfig = Ok systemCfg
           ∧ base = mergeConfigs DefaultConfig systemCfg).
Proof.
  apply (Load_user_overlay_last id id layered_system
           "/home/alice/.config/linux-wave/config.yaml"
           (set_Timeout 30 zeroConfig)); reflexivity.
Defined.

Lemma Load_drops_unmentioned_booleans_witness :
  Enabled (Audio (set_Timeout 30
                    (mergeConfigs DefaultConfig
                       (set_Timeout 20 (set_Format "text" zeroConfig))))) = false
  ∧ LivenessRequired
      (Security (set_Timeout 30
                   (mergeConfigs DefaultConfig
                      (set_Timeout 20 (set_Format "text" zeroConfig))))) = false.
Proof.
  apply (Load_drops_unmentioned_booleans id id layered_system
           "/home/alice/.config/linux-wave/config.yaml" [service_timeout 30]);
    reflexivity.
Defined.

Lemma LoadFromPath_keeps_unmentioned_booleans_witness :
  Enabled (Audio GlossaryDefaults) = true
  ∧ LivenessRequired (Security GlossaryDefaults) = true.
Proof.
  apply (LoadFromPath_keeps_unmentioned_booleans id id text_format_system
           systemConfigPath systemConfigPath [logging_format "text"]);
    reflexivity.
Defined.

(** An instance of X23: a user file that asks for a volume of 0. *)
Lemma Load_never_returns_zero_witness :
  Volume (Audio (mergeConfigs DefaultConfig (set_Format "text" zeroConfig))) ≠ 0%Z
  ∧ LockoutDuration
      (Security (mergeConfigs DefaultConfig (set_Format "text" zeroConfig))) ≠ 0%Z
  ∧ ¬ F64.is_zero
        (MatchThreshold
           (Security (mergeConfigs DefaultConfig (set_Format "text" zeroConfig)))).
Proof.
  apply (Load_never_returns_zero id id muted_system
           (mergeConfigs DefaultConfig (set_Format "text" zeroConfig))).
  reflexivity.
Defined.

(** * More on the Path Resolver *)

Lemma alnum_not_brace (c : ascii) :
  expand.isAlphaNum c = true → Ascii.eqb c "{" = false.
Proof.
  destruct c as [[] [] [] [] [] [] [] []]; vm_compute; intros H;
    first [reflexivity | discriminate H].
Qed.

Lemma scan_alnum_name (name post : string) :
  all_alnum name = true → ends_name post = true →
  expand.scan_alnum (name ++ post) = name.
Proof.
  intros Hn Hp. induction name as [|c name IH]; simpl.
  - by apply scan_alnum_stops.
  - simpl in Hn. apply andb_true_iff in Hn as [Hc Hn]. rewrite Hc, (IH Hn).
    reflexivity.
Qed.

Lemma expand_skip (mapping : string → string) (name post : string) :
  expand.expand_loop mapping (String.length name) (name ++ post)
  = expand.expand_loop mapping 0 post.
Proof. induction name as [|c name IH]; simpl; [reflexivity | exact IH]. Qed.

Lemma getShellName_plain (name post : string) :
  plain_name name = true → ends_name post = true →
  expand.getShellName (name ++ post) = (name, String.length name).
Proof.
  intros Hn Hp. destruct name as [|c name]; [discriminate|].
  unfold plain_name in Hn. apply andb_true_iff in Hn as [Hs Ha].
  apply negb_true_iff in Hs.
  pose proof Ha as Hc. simpl in Hc. apply andb_true_iff in Hc as [Hc _].
  change (String c name ++ post) with (String c (name ++ post)).
  unfold expand.getShellName. rewrite (alnum_not_brace c Hc), Hs.
  change (String c (name ++ post)) with (String c name ++ post).
  rewrite (scan_alnum_name _ _ Ha Hp). reflexivity.
Qed.

(** A reference to a plain name is replaced by what the mapping gives. *)
Lemma expand_reference (mapping : string → string) (name post : string) :
  plain_name name = true → ends_name post = true →
  expand.expand_loop mapping 0 ("$" ++ name ++ post)
  = mapping name ++ expand.expand_loop mapping 0 post.
Proof.
  intros Hn Hp.
  assert (strings.is_empty (name ++ post) = false) as Hne.
  { destruct name; [discriminate | reflexivity]. }
  assert (strings.is_empty name = false) as Hne'.
  { destruct name; [discriminate | reflexivity]. }
  change ("$" ++ name ++ post) with (String "$" (name ++ post)).
  cbn [expand.expand_loop Ascii.eqb Bool.eqb andb].
  rewrite Hne. cbn [negb].
  rewrite (getShellName_plain _ _ Hn Hp), Hne'. cbn [andb].
  rewrite expand_skip. reflexivity.
Qed.

Section PathExtras.
Variable w : OS.

(** X18. [expandPath] fails in one case only: the path starts with the home
    marker and [HOME] is unset or empty. *)
Theorem expandPath_fails_iff (path : string) :
  (∃ e, expandPath w path = Err e)
  ↔ strings.HasPrefix path "~" = true ∧ os.Getenv w "HOME" = "".
Proof.
  unfold expandPath, os.UserHomeDir.
  destruct (strings.HasPrefix path "~").
  - destruct (os.Getenv w "HOME") as [|c home] eqn:E; simpl.
    + split; [auto | eauto].
    + split; [intros [e H]; discriminate | intros [_ H]; discriminate].
  - split; [intros [e H]; discriminate | intros [H _]; discriminate].
Qed.

(** X19. A path without the home marker in front and without a dollar sign
    is returned as it is: it is neither cleaned nor made absolute. *)
Theorem expandPath_plain_path (path : string) :
  strings.HasPrefix path "~" = false → no_dollar path = true →
  expandPath w path = Ok path.
Proof.
  intros Ht Hd. unfold expandPath. rewrite Ht.
  unfold os.ExpandEnv, expand.Expand. by rewrite expand_no_dollar.
Qed.

(** X20. A reference [$NAME] to a plain name is replaced by the value of
    the variable, the empty string when it is unset; the value is not
    expanded again. *)
Theorem expandPath_substitutes_variable (pre name post : string) :
  strings.HasPrefix (pre ++ "$" ++ name ++ post) "~" = false →
  no_dollar pre = true → plain_name name = true →
  ends_name post = true → no_dollar post = true →
  expandPath w (pre ++ "$" ++ name ++ post)
  = Ok (pre ++ os.Getenv w name ++ post).
Proof.
  intros Ht Hpre Hn Hend Hpost. unfold expandPath. rewrite Ht.
  unfold os.ExpandEnv, expand.Expand.
  rewrite (expand_prefix_no_dollar _ pre _ Hpre).
  rewrite (expand_reference _ name post Hn Hend).
  rewrite (expand_no_dollar _ post Hpost). reflexivity.
Qed.

End PathExtras.

(** Instances of X18, X19 and X20. *)
Lemma expandPath_fails_iff_witness :
  ∃ e, expandPath homeless_system "~/.config/linux-wave/config.yaml" = Err e.
Proof.
  apply (proj2 (expandPath_fails_iff homeless_system
                  "~/.config/linux-wave/config.yaml")).
  split; reflexivity.
Defined.

Lemma expandPath_plain_path_witness :
  expandPath bare_system "conf//linux-wave/../wave.yaml"
  = Ok "conf//linux-wave/../wave.yaml".
Proof.
  apply (expandPath_plain_path bare_system "conf//linux-wave/../wave.yaml");
    reflexivity.
Defined.

Lemma expandPath_substitutes_variable_witness :
  expandPath sounds_system ("/opt" ++ "$" ++ "SOUNDS" ++ "/ok.wav")
  = Ok ("/opt" ++ os.Getenv sounds_system "SOUNDS" ++ "/ok.wav").
Proof.
  apply (expandPath_substitutes_variable sounds_system "/opt" "SOUNDS" "/ok.wav");
    reflexivity.
Defined.

(** * The Presenter *)

(** [sanitizePath] never returns the empty string, and returns a non-empty
    path as it is. *)
Lemma sanitizePath_never_empty (path : string) :
  sanitizePath path ≠ "" ∧ (path ≠ "" → sanitizePath path = path).
Proof.
  unfold sanitizePath. destruct (String.eqb_spec path "") as [->|Hne].
  - split; [discriminate | intros H; contradiction].
  - split; [exact Hne | reflexivity].
Qed.

Section PresenterFacts.
Variable verb_f2 : float64 → string.

(** X21. The rendering shows both custom sound paths through
    [sanitizePath]: the marker [<not set>] for an empty path, the path
    itself otherwise. *)
Theorem Config_String_shows_sounds (c : Config) :
  mentions (Config_String verb_f2 c)
    (", CustomSuccess: " ++ sanitizePath (CustomSoundSuccess (Audio c))
     ++ ", CustomFailure: " ++ sanitizePath (CustomSoundFailure (Audio c)) ++ "}")
  = true
  ∧ (CustomSoundSuccess (Audio c) = "" →
     mentions (Config_String verb_f2 c) ", CustomSuccess: <not set>, " = true)
  ∧ (CustomSoundFailure (Audio c) = "" →
     mentions (Config_String verb_f2 c) ", CustomFailure: <not set>}" = true).
Proof.
  unfold Config_String.
  split; [|split].
  - do 20 apply mentions_suffix.
    apply mentions_spec. exists "". eexists.
    rewrite !string_app_assoc. reflexivity.
  - intros ->. do 20 apply mentions_suffix.
    apply mentions_spec. exists "". eexists.
    change (sanitizePath "") with "<not set>". reflexivity.
  - intros ->. do 22 apply mentions_suffix.
    apply mentions_spec. exists "". eexists.
    change (sanitizePath "") with "<not set>". reflexivity.
Qed.

End PresenterFacts.

(** An instance of X21: the glossary's baseline, which has no custom
    sounds. *)
Lemma Config_String_shows_sounds_witness :
  mentions (Config_String (fun _ => "0.85") GlossaryDefaults)
    ", CustomSuccess: <not set>, " = true
  ∧ mentions (Config_String (fun _ => "0.85") GlossaryDefaults)
      ", CustomFailure: <not set>}" = true.
Proof.
  split.
  - apply (proj1 (proj2 (Config_String_shows_sounds (fun _ => "0.85")
                           GlossaryDefaults))).
    reflexivity.
  - apply (proj2 (proj2 (Config_String_shows_sounds (fun _ => "0.85")
                           GlossaryDefaults))).
    reflexivity.
Defined.
